(** * Tool-orchestration conversation engine (OllamaMCPClient)

    A shallow embedding of [src/clients/ollama_client.py]: the session
    registry ([servers], [selected_server]), the tool catalog ([get_tools]),
    the tool dispatcher ([_tool_call]) and the recursive streaming drive loop
    ([process_message], [_recursive_prompt]), with the event records of
    [src/abstract/api_response.py].

    The language-model runtime and the tool providers are external: they are
    Section variables acting on an abstract [World].

    Conventions of the embedding:
    - an [async] generator is run to its end: what it yields is collected
      in order, and an exception ends it after what was yielded before;
    - the stream of one model request is a finite list of fragments that
      arrives whole: a request to the model that raises, or a stream that
      breaks off with an exception, has no counterpart here.  Such a run
      ends in the state that the run on the fragments received so far is
      in when it has read them: what is stated of the state of a run
      whatever its result holds of it, what is stated of a result does
      not speak of it;
    - the recursion of [_recursive_prompt] is bounded by a fuel argument,
      one unit per model request.  The interpreter's own bound is not
      represented: the source nests one generator per model request and a
      run of near a thousand requests is ended by RecursionError.
      [OutOfFuel] is where a run stands after its last permitted request,
      whether it would go on or is cut there; nothing here says that a
      run goes on for ever;
    - every request to the outside is logged, so that statements can speak
      of what was sent to a provider or to the model;
    - Python strings are byte strings here; [repr] keeps bytes from 0x80 up,
      which is right for printable text only: a character outside ASCII
      that Python's [repr] escapes is kept as it is, so that the exact
      text of a turn differs for such an argument, though not what it
      contains nor the test for 'token';
    - logging is left out. *)

From Stdlib Require Import List String Ascii ZArith Bool Lia PeanoNat.
From Stdlib Require Import DecimalString.
Import ListNotations.
Open Scope list_scope.
Open Scope string_scope.

Set Implicit Arguments.
Set Warnings "-register-all".

(** ** Python strings *)

Module PyStr.

Definition chr (n : nat) : ascii := ascii_of_nat n.
Definition str1 (c : ascii) : string := String c EmptyString.

Definition LF : string := str1 (chr 10).
Definition squote : ascii := chr 39.
Definition dquote : ascii := chr 34.
Definition backslash : ascii := chr 92.

(** [needle in hay] *)
Fixpoint contains (needle hay : string) : bool :=
  if prefix needle hay then true
  else match hay with
       | EmptyString => false
       | String _ rest => contains needle rest
       end.

(** [s.split(sep)] for a one-character separator: never empty. *)
Fixpoint split (sep : ascii) (s : string) : list string :=
  match s with
  | EmptyString => [EmptyString]
  | String c rest =>
      if Ascii.eqb c sep then EmptyString :: split sep rest
      else match split sep rest with
           | h :: r => String c h :: r
           | [] => [str1 c]
           end
  end.

(** [sep.join(parts)] *)
Fixpoint join (sep : string) (parts : list string) : string :=
  match parts with
  | [] => EmptyString
  | [p] => p
  | p :: rest => p ++ sep ++ join sep rest
  end.

Definition hex_digit (n : nat) : ascii :=
  nth n (list_ascii_of_string "0123456789abcdef") "0"%char.

(** One character of [repr(s)], for the chosen quote character.  Bytes
    from 0x80 up stand for printable non-ASCII text and are kept; a
    character outside ASCII that is not printable, which Python writes
    as an escape, is not told apart from it. *)
Definition repr_char (quote c : ascii) : string :=
  let n := nat_of_ascii c in
  if Ascii.eqb c quote || Ascii.eqb c backslash then String backslash (str1 c)
  else if Nat.eqb n 9 then "\t"
  else if Nat.eqb n 10 then "\n"
  else if Nat.eqb n 13 then "\r"
  else if Nat.ltb n 32 || Nat.eqb n 127
       then "\x" ++ String (hex_digit (n / 16)) (str1 (hex_digit (n mod 16)))
  else str1 c.

Fixpoint repr_body (quote : ascii) (s : string) : string :=
  match s with
  | EmptyString => EmptyString
  | String c rest => repr_char quote c ++ repr_body quote rest
  end.

(** [repr(s)]: single quotes, unless [s] has a single quote and no
    double quote. *)
Definition repr (s : string) : string :=
  let quote :=
    if contains (str1 squote) s && negb (contains (str1 dquote) s)
    then dquote else squote in
  String quote (repr_body quote s ++ str1 quote).

End PyStr.

(** ** Python values: tool arguments and JSON schemas *)

Inductive pyval : Type :=
| PNone
| PBool (b : bool)
| PInt (z : Z)
| PFloat (shown : string)   (* a float, carried with its [repr] *)
| PStr (s : string)
| PList (l : list pyval)
| PDict (d : list (string * pyval)).

Definition join_items (items : list string) : string := PyStr.join ", " items.

Fixpoint py_repr (v : pyval) : string :=
  match v with
  | PNone => "None"
  | PBool true => "True"
  | PBool false => "False"
  | PInt z => NilZero.string_of_int (Z.to_int z)
  | PFloat shown => shown
  | PStr s => PyStr.repr s
  | PList l => "[" ++ join_items (map py_repr l) ++ "]"
  | PDict d =>
      "{" ++ join_items
               (map (fun kv : string * pyval => let (k, x) := kv in
                               PyStr.repr k ++ ": " ++ py_repr x) d) ++ "}"
  end.

(** ** Insertion-ordered dictionaries with string keys *)

Section Dict.
Variable V : Type.

Definition dict := list (string * V).

Fixpoint dict_get (d : dict) (k : string) : option V :=
  match d with
  | [] => None
  | (k', v) :: rest => if String.eqb k' k then Some v else dict_get rest k
  end.

(** [d[k] = v]: an existing key keeps its position, a new one goes last. *)
Fixpoint dict_set (d : dict) (k : string) (v : V) : dict :=
  match d with
  | [] => [(k, v)]
  | (k', v') :: rest =>
      if String.eqb k' k then (k, v) :: rest
      else (k', v') :: dict_set rest k v
  end.

Definition dict_keys (d : dict) : list string := map fst d.
Definition dict_values (d : dict) : list V := map snd d.
End Dict.

Arguments dict_get {V} d k.
Arguments dict_set {V} d k v.
Arguments dict_keys {V} d.
Arguments dict_values {V} d.

(** [str(tool_args)] for an argument mapping. *)
Definition py_str_dict (d : dict pyval) : string := py_repr (PDict d).

(** ** Data model *)

(** [ollama.Tool]: [type] is always "function". *)
Record ToolFunction := {
  fn_name : string;
  fn_description : option string;
  fn_parameters : pyval
}.

Record Tool := { tool_type : string; function : ToolFunction }.

(** A tool as a provider lists it ([response.tools]). *)
Record McpTool := {
  mcp_name : string;
  mcp_description : option string;
  inputSchema : pyval
}.

(** The provider connection ([mcp.ClientSession]), an opaque handle. *)
Definition ClientSession := nat.

Record Session := { session : ClientSession; tools : list Tool }.

(** [Message.ToolCall]: [function.name] and [function.arguments]. *)
Record ToolCall := { call_name : string; arguments : dict pyval }.

(** One fragment of the model's stream: [part.message].  An absent
    [tool_calls] is the empty list (both are falsy). *)
Record Part := { part_content : string; tool_calls : list ToolCall }.

(** An entry of [self.messages]. *)
Record Message := { role : string; content : string }.

(** [ChatResponse] of [api_response.py]. *)
Record ChatResponse := {
  cr_role : string;
  cr_content : string;
  cr_tool_name : option string;
  cr_tool_status : option string;
  cr_tool_chain : option (list string)
}.

(** Result items of a tool call ([result.content]). *)
Inductive Content :=
| TextContent (text : string)
| OtherContent (class_name : string).

Inductive CallOutcome :=
| Returned (result_content : list Content)
| Threw (description : string).

(** Transport parameters of a provider, and the three kinds of client. *)
Definition Params := string.

Inductive Transport :=
| stdio_client (p : Params)
| sse_client (p : Params)
| streamablehttp_client (p : Params).

Record ConfigContainer := {
  stdio : dict Params;
  sse : dict Params;
  streamable : dict Params
}.

Inductive ConnectOutcome :=
| Connected (s : ClientSession) (listed : list McpTool)
| ConnectFailed (description : string).

(** Python exceptions that the engine can meet. *)
Inductive exn :=
| KeyError (key : string)
| IndexError (msg : string)
| AttributeError (msg : string)
| ProviderError (msg : string)
| ConnectionFailed (msg : string).

(** [str(e)] *)
Definition exn_str (e : exn) : string :=
  match e with
  | KeyError key => PyStr.repr key
  | IndexError msg | AttributeError msg
  | ProviderError msg | ConnectionFailed msg => msg
  end.

(** [self.selected_server] is either the very dictionary [self.servers]
    (after [_connect_to_multiple_servers]) or a dictionary of its own. *)
Inductive Selected :=
| SameAsServers
| OwnDict (d : dict Session).

(** The fields of an [OllamaMCPClient]; [user_token] is absent until
    [prepare_prompt] or [process_message] sets it. *)
Record Client := {
  servers : dict Session;
  selected_server : Selected;
  messages : list Message;
  user_token : option string
}.

Definition selected (c : Client) : dict Session :=
  match selected_server c with
  | SameAsServers => servers c
  | OwnDict d => d
  end.

(** [__init__] *)
Definition init : Client :=
  {| servers := []; selected_server := OwnDict []; messages := [];
     user_token := None |}.

(** [get_tools] *)
Definition get_tools (c : Client) : list Tool :=
  flat_map tools (dict_values (selected c)).

(** [name in servers] for a list of names. *)
Definition name_in (name : string) (names : list string) : bool :=
  existsb (String.eqb name) names.

(** [select_server] *)
Definition select_server (names : list string) (c : Client) : Client :=
  {| servers := servers c;
     selected_server :=
       OwnDict (filter (fun entry => name_in (fst entry) names) (servers c));
     messages := messages c;
     user_token := user_token c |}.

(** The system prompt; its text, several paragraphs in the source, is cut
    to its first words: the engine only stores it. *)
Definition SYSTEM_PROMPT : string := "Kamu adalah FoodBot".

(** [prepare_prompt] *)
Definition prepare_prompt (c : Client) : Client :=
  {| servers := servers c; selected_server := selected_server c;
     messages := [{| role := "system"; content := SYSTEM_PROMPT |}];
     user_token := Some EmptyString |}.

(** What the engine asks of the outside, in order; a tool call is logged
    with what the provider answered. *)
Inductive IO :=
| IoConnect (t : Transport)
| IoChat (model : string) (history : list Message) (catalog : list Tool)
| IoCallTool (s : ClientSession) (tool_name : string) (args : dict pyval)
    (outcome : CallOutcome).

Inductive Res (A : Type) :=
| Ok (a : A)
| Raise (e : exn)
| OutOfFuel.

Arguments Ok {A} a.
Arguments Raise {A} e.
Arguments OutOfFuel {A}.

(** ** The engine, over an abstract outside world *)

Section Engine.

(** The state of everything outside the engine: the model runtime and the
    providers.  [chat] is [self.client.chat(..., stream=True)] with the
    whole stream of the turn; [call_tool] is [session.call_tool];
    [connect] opens a channel, initialises the session and lists tools. *)
Variable World : Type.
Variable chat :
  World -> string -> list Message -> list Tool -> list Part * World.
Variable call_tool :
  World -> ClientSession -> string -> dict pyval -> CallOutcome * World.
Variable connect : World -> Transport -> ConnectOutcome * World.

(** The client object, the world, what was asked of the world so far and
    what the generator has yielded so far (the consumer drains it). *)
Record Machine := {
  self : Client;
  world : World;
  io : list IO;
  yielded : list ChatResponse
}.

Definition M (A : Type) : Type := Machine -> Res A * Machine.

Definition ret {A} (a : A) : M A := fun m => (Ok a, m).

Definition bind {A B} (c : M A) (k : A -> M B) : M B :=
  fun m =>
    match c m with
    | (Ok a, m') => k a m'
    | (Raise e, m') => (Raise e, m')
    | (OutOfFuel, m') => (OutOfFuel, m')
    end.

Notation "x <- c ;; k" := (bind c (fun x => k))
  (at level 61, c at next level, right associativity).
Notation "c ;; k" := (bind c (fun _ => k))
  (at level 61, right associativity).

Definition raise {A} (e : exn) : M A := fun m => (Raise e, m).

Definition out_of_fuel {A} : M A := fun m => (OutOfFuel, m).

(** [try: body / except Exception as e: handler e] *)
Definition try_except {A} (body : M A) (handler : exn -> M A) : M A :=
  fun m =>
    match body m with
    | (Raise e, m') => handler e m'
    | other => other
    end.

Definition get_self : M Client := fun m => (Ok (self m), m).

Definition set_self (c : Client) : M unit :=
  fun m => (Ok tt, {| self := c; world := world m; io := io m;
                      yielded := yielded m |}).

Definition yield (r : ChatResponse) : M unit :=
  fun m => (Ok tt, {| self := self m; world := world m; io := io m;
                      yielded := (yielded m ++ [r])%list |}).

(** [for x in l: body x] *)
Fixpoint for_ {A} (l : list A) (body : A -> M unit) : M unit :=
  match l with
  | [] => ret tt
  | x :: rest => body x ;; for_ rest body
  end.

(** [self.messages.append(msg)] *)
Definition append_message (msg : Message) : M unit :=
  c <- get_self ;;
  set_self {| servers := servers c; selected_server := selected_server c;
              messages := (messages c ++ [msg])%list;
              user_token := user_token c |}.

Definition set_user_token (token : string) : M unit :=
  c <- get_self ;;
  set_self {| servers := servers c; selected_server := selected_server c;
              messages := messages c; user_token := Some token |}.

(** [self.servers[name] = s] *)
Definition set_server (name : string) (s : Session) : M unit :=
  c <- get_self ;;
  set_self {| servers := dict_set (servers c) name s;
              selected_server := selected_server c;
              messages := messages c; user_token := user_token c |}.

(** [self.selected_server = self.servers]: the same dictionary. *)
Definition select_all : M unit :=
  c <- get_self ;;
  set_self {| servers := servers c; selected_server := SameAsServers;
              messages := messages c; user_token := user_token c |}.

(** [await self.client.chat(...)] with the stream it opens, read to its
    end.  The answer is always a stream here: a request that raises, or
    a stream that raises part way, is not represented. *)
Definition do_chat (model : string) : M (list Part) :=
  fun m =>
    let history := messages (self m) in
    let catalog := get_tools (self m) in
    let (stream, w) := chat (world m) model history catalog in
    (Ok stream, {| self := self m; world := w;
                   io := (io m ++ [IoChat model history catalog])%list;
                   yielded := yielded m |}).

Definition do_call_tool (s : ClientSession) (tool_name : string)
  (args : dict pyval) : M (list Content) :=
  fun m =>
    let (outcome, w) := call_tool (world m) s tool_name args in
    let m' := {| self := self m; world := w;
                 io := (io m ++ [IoCallTool s tool_name args outcome])%list;
                 yielded := yielded m |} in
    match outcome with
    | Returned result_content => (Ok result_content, m')
    | Threw description => (Raise (ProviderError description), m')
    end.

Definition do_connect (client : Transport)
  : M (ClientSession * list McpTool) :=
  fun m =>
    let (outcome, w) := connect (world m) client in
    let m' := {| self := self m; world := w;
                 io := (io m ++ [IoConnect client])%list;
                 yielded := yielded m |} in
    match outcome with
    | Connected s listed => (Ok (s, listed), m')
    | ConnectFailed description => (Raise (ConnectionFailed description), m')
    end.

(** *** Session registry *)

(** The [Tool(...)] built for one listed tool in [_connect_client]. *)
Definition qualify (name : string) (tool : McpTool) : Tool :=
  {| tool_type := "function";
     function := {| fn_name := name ++ "/" ++ mcp_name tool;
                    fn_description := mcp_description tool;
                    fn_parameters := inputSchema tool |} |}.

Definition _connect_client (name : string) (client : Transport)
  : M (ClientSession * list Tool) :=
  connected <- do_connect client ;;
  ret (fst connected, map (qualify name) (snd connected)).

(** One iteration of the three loops of [_connect_to_multiple_servers]. *)
Definition connect_entry (mk : Params -> Transport)
  (entry : string * Params) : M unit :=
  r <- _connect_client (fst entry) (mk (snd entry)) ;;
  set_server (fst entry) {| session := fst r; tools := snd r |}.

Definition _connect_to_multiple_servers (config : ConfigContainer) : M unit :=
  for_ (stdio config) (connect_entry stdio_client) ;;
  for_ (sse config) (connect_entry sse_client) ;;
  for_ (streamable config) (connect_entry streamablehttp_client) ;;
  select_all.

Definition fresh (w : World) : Machine :=
  {| self := init; world := w; io := []; yielded := [] |}.

(** [OllamaMCPClient.create] *)
Definition create (config : ConfigContainer) (w : World) : Res unit * Machine :=
  _connect_to_multiple_servers config (fresh w).

(** *** Tool dispatcher *)

(** Lines 250-252: the token goes in when [user_token] is set, non-empty,
    and ['token' in str(tool_args)]. *)
Definition token_applies (token : option string) (tool_args : dict pyval)
  : bool :=
  match token with
  | Some t => negb (String.eqb t EmptyString)
              && PyStr.contains "token" (py_str_dict tool_args)
  | None => false
  end.

Definition with_token (token : option string) (tool_args : dict pyval)
  : dict pyval :=
  if token_applies token tool_args
  then dict_set tool_args "token" (PStr (match token with
                                         | Some t => t
                                         | None => EmptyString
                                         end))
  else tool_args.

(** [cast(TextContent, result.content[0]).text] *)
Definition first_text (result_content : list Content) : M string :=
  match result_content with
  | [] => raise (IndexError "list index out of range")
  | TextContent text :: _ => ret text
  | OtherContent class_name :: _ =>
      raise (AttributeError
               ("'" ++ class_name ++ "' object has no attribute 'text'"))
  end.

(** [str(tool.function)] *)
Definition function_str (tool : ToolCall) : string :=
  "name=" ++ PyStr.repr (call_name tool)
  ++ " arguments=" ++ py_str_dict (arguments tool).

Definition success_message (tool : ToolCall) (tool_args : dict pyval)
  (text : string) : string :=
  "tool: " ++ call_name tool ++ PyStr.LF
  ++ "args: " ++ py_str_dict tool_args ++ PyStr.LF
  ++ "return: " ++ text.

Definition error_message (tool : ToolCall) (tool_args : dict pyval)
  (e : exn) : string :=
  "Error in tool: " ++ function_str tool ++ PyStr.LF
  ++ "args: " ++ py_str_dict tool_args ++ PyStr.LF
  ++ exn_str e.

(** The body of the loop of [_tool_call], for one requested call. *)
Definition tool_call_body (tool : ToolCall) : M string :=
  c <- get_self ;;
  let split := PyStr.split "/" (call_name tool) in
  let provider := hd EmptyString split in
  session_ <- match dict_get (selected c) provider with
              | Some s => ret (session s)
              | None => raise (KeyError provider)
              end ;;
  tool_name <- match nth_error split 1 with
               | Some t => ret t
               | None => raise (IndexError "list index out of range")
               end ;;
  let tool_args := with_token (user_token c) (arguments tool) in
  try_except
    (result_content <- do_call_tool session_ tool_name tool_args ;;
     text <- first_text result_content ;;
     ret (success_message tool tool_args text))
    (fun e => ret (error_message tool tool_args e)).

Fixpoint tool_call_loop (tool_calls : list ToolCall) (msgs : list string)
  : M (list string) :=
  match tool_calls with
  | [] => ret msgs
  | tool :: rest =>
      message <- tool_call_body tool ;;
      tool_call_loop rest (msgs ++ [message])%list
  end.

Definition _tool_call (tool_calls : list ToolCall) (tool_chain : list string)
  : M (list string) :=
  tool_call_loop tool_calls [].

(** *** Drive loop *)

(** [tool_chain if tool_chain else None] *)
Definition chain_or_none (tool_chain : list string) : option (list string) :=
  match tool_chain with
  | [] => None
  | _ => Some tool_chain
  end.

Definition assistant_event (tool_chain : list string) (text : string)
  : ChatResponse :=
  {| cr_role := "assistant"; cr_content := text; cr_tool_name := None;
     cr_tool_status := None; cr_tool_chain := chain_or_none tool_chain |}.

Definition calling_event (tool_chain : list string) (tool_call : ToolCall)
  : ChatResponse :=
  let tool_name := call_name tool_call in
  let new_tool_chain := (tool_chain ++ [tool_name])%list in
  {| cr_role := "status"; cr_content := "Calling tool: " ++ tool_name;
     cr_tool_name := Some tool_name; cr_tool_status := Some "calling";
     cr_tool_chain := Some new_tool_chain |}.

Definition result_event (tool_chain : list string) (tool_message : string)
  : ChatResponse :=
  {| cr_role := "tool"; cr_content := tool_message; cr_tool_name := None;
     cr_tool_status := None; cr_tool_chain := chain_or_none tool_chain |}.

Definition nonempty (s : string) : bool := negb (String.eqb s EmptyString).

(** The body of [async for part in stream]; returns the new
    [tool_message_count]. *)
Definition on_part (tool_chain : list string) (part : Part)
  (tool_message_count : nat) : M nat :=
  if nonempty (part_content part) then
    yield (assistant_event tool_chain (part_content part)) ;;
    ret tool_message_count
  else
    match tool_calls part with
    | [] => ret tool_message_count
    | _ :: _ =>
        for_ (tool_calls part)
             (fun tool_call => yield (calling_event tool_chain tool_call)) ;;
        tool_messages <- _tool_call (tool_calls part) tool_chain ;;
        for_ tool_messages
             (fun tool_message =>
                yield (result_event tool_chain tool_message) ;;
                append_message {| role := "tool"; content := tool_message |}) ;;
        ret (S tool_message_count)
    end.

Fixpoint consume (tool_chain : list string) (stream : list Part)
  (tool_message_count : nat) : M nat :=
  match stream with
  | [] => ret tool_message_count
  | part :: rest =>
      n <- on_part tool_chain part tool_message_count ;;
      consume tool_chain rest n
  end.

(** [_recursive_prompt]; the source has no counter and recurses as long as
    a turn dispatched a batch; [fuel] bounds the number of model requests.
    In the source each request nests one more generator, and the
    interpreter ends a run of near a thousand requests with
    RecursionError: [OutOfFuel] stands for the run being cut after its
    last permitted request, never for a run known to continue. *)
Fixpoint _recursive_prompt (fuel : nat) (model : string)
  (tool_chain : list string) : M unit :=
  match fuel with
  | O => out_of_fuel
  | S fuel' =>
      stream <- do_chat model ;;
      tool_message_count <- consume tool_chain stream 0 ;;
      if Nat.ltb 0 tool_message_count
      then _recursive_prompt fuel' model tool_chain
      else ret tt
  end.

(** [process_message], drained by its consumer. *)
Definition process_message (fuel : nat) (message model token : string)
  : M unit :=
  append_message {| role := "user"; content := message |} ;;
  set_user_token token ;;
  _recursive_prompt fuel model [].

End Engine.

Arguments fresh {World} w.
Arguments ret {World A} a _.
Arguments raise {World A} e _.

(** ** What the specification says, for comparison *)

Inductive SpecError := UnknownProviderError | MalformedToolNameError.

(** selectActive as specified: fails when a name is not registered. *)
Definition selectActive_spec (names : list string) (c : Client)
  : SpecError + Client :=
  if forallb (fun n => name_in n (dict_keys (servers c))) names
  then inr (select_server names c)
  else inl UnknownProviderError.

(** A declared input schema has a [token] field: a JSON schema object
    whose "properties" has the key "token". *)
Definition schema_declares_token (schema : pyval) : bool :=
  match schema with
  | PDict d =>
      match dict_get d "properties" with
      | Some (PDict props) =>
          match dict_get props "token" with
          | Some _ => true
          | None => false
          end
      | _ => false
      end
  | _ => false
  end.

(** The descriptor of a qualified name in the catalog. *)
Definition find_tool (catalog : list Tool) (qualified : string) : option Tool :=
  find (fun t => String.eqb (fn_name (function t)) qualified) catalog.

Definition is_call (e : IO) : bool :=
  match e with IoCallTool _ _ _ _ => true | _ => false end.

Definition is_chat (e : IO) : bool :=
  match e with IoChat _ _ _ => true | _ => false end.

(** Number of tool calls, and of model requests, made so far. *)
Definition calls_made (l : list IO) : nat := List.length (filter is_call l).
Definition chats_made (l : list IO) : nat := List.length (filter is_chat l).

(** ** Vocabulary for the statements *)

(** Lines 245-247 of [_tool_call] as a function: the provider's session
    and the provider-side tool name, when both lookups succeed. *)
Definition route (c : Client) (qualified : string)
  : option (ClientSession * string) :=
  let split := PyStr.split "/" qualified in
  match dict_get (selected c) (hd EmptyString split) with
  | Some s =>
      match nth_error split 1 with
      | Some t => Some (session s, t)
      | None => None
      end
  | None => None
  end.

(** The text that [_tool_call] makes of one call, from the arguments it
    sent and what the provider answered. *)
Definition reply (tool : ToolCall) (tool_args : dict pyval)
  (outcome : CallOutcome) : string :=
  match outcome with
  | Returned (TextContent text :: _) => success_message tool tool_args text
  | Returned [] =>
      error_message tool tool_args (IndexError "list index out of range")
  | Returned (OtherContent class_name :: _) =>
      error_message tool tool_args
        (AttributeError
           ("'" ++ class_name ++ "' object has no attribute 'text'"))
  | Threw description =>
      error_message tool tool_args (ProviderError description)
  end.

(** The arguments that go to the provider for a call made by client [c]. *)
Definition sent_args (c : Client) (tool : ToolCall) : dict pyval :=
  with_token (user_token c) (arguments tool).



(** The history entry of a tool result. *)
Definition tool_turn (text : string) : Message :=
  {| role := "tool"; content := text |}.

(** Nothing but the history differs between two client states. *)
Definition same_registry (c c' : Client) : Prop :=
  servers c' = servers c /\ selected_server c' = selected_server c
  /\ user_token c' = user_token c.

(** How the loop tags an event when it runs with [tool_chain]: content and
    results carry the chain as it is, a calling status carries the chain
    extended by the name it announces. *)
Definition well_tagged (tool_chain : list string) (ev : ChatResponse) : Prop :=
  ((cr_role ev = "assistant" \/ cr_role ev = "tool")
   /\ cr_tool_chain ev = chain_or_none tool_chain)
  \/ (cr_role ev = "status"
      /\ exists name, cr_tool_name ev = Some name
                      /\ cr_tool_chain ev = Some (tool_chain ++ [name])%list).

(** The fragment asks for tools and the loop acts on it. *)
Definition dispatches (part : Part) : bool :=
  negb (nonempty (part_content part))
  && match tool_calls part with [] => false | _ :: _ => true end.

(** The history entry of a user message. *)
Definition user_turn (text : string) : Message :=
  {| role := "user"; content := text |}.

(** The client once [process_message] has recorded the message and the
    token, before the first model request. *)
Definition asked (message token : string) (c : Client) : Client :=
  {| servers := servers c; selected_server := selected_server c;
     messages := (messages c ++ [user_turn message])%list;
     user_token := Some token |}.

(** The specification's round trip: the history after the answer is the
    history before, the user message, and assistant entries that together
    hold the text that was streamed. *)
Definition history_keeps_answer (before : list Message) (message : string)
  (events : list ChatResponse) (after : list Message) : Prop :=
  exists answer : list Message,
    after = (before ++ [user_turn message] ++ answer)%list
    /\ Forall (fun msg => role msg = "assistant") answer
    /\ String.concat EmptyString (map content answer)
       = String.concat EmptyString (map cr_content events).

(** The same registry with other tool descriptors (and so other declared
    schemas) on every session. *)
Definition retool_session (g : list Tool -> list Tool)
  (entry : string * Session) : string * Session :=
  (fst entry, {| session := session (snd entry);
                 tools := g (tools (snd entry)) |}).

Definition retool (g : list Tool -> list Tool) (c : Client) : Client :=
  {| servers := map (retool_session g) (servers c);
     selected_server :=
       match selected_server c with
       | SameAsServers => SameAsServers
       | OwnDict d => OwnDict (map (retool_session g) d)
       end;
     messages := messages c;
     user_token := user_token c |}.

(** The qualified names of a catalog. *)
Definition qualified_names (catalog : list Tool) : list string :=
  map (fun t => fn_name (function t)) catalog.

Definition no_slash (name : string) : bool := negb (PyStr.contains "/" name).

(** The provider names of a configuration. *)
Definition config_names (config : ConfigContainer) : list string :=
  (dict_keys (stdio config) ++ dict_keys (sse config)
     ++ dict_keys (streamable config))%list.

(** No provider lists the same tool name twice. *)
Definition lists_distinct {World : Type}
  (connect : World -> Transport -> ConnectOutcome * World) : Prop :=
  forall w t s listed w',
    connect w t = (Connected s listed, w') -> NoDup (map mcp_name listed).

(** The tools of a registry entry are named after the entry:
    "<provider>/<tool>" for distinct tool names. *)
Definition provider_named (entry : string * Session) : Prop :=
  exists natives,
    qualified_names (tools (snd entry))
    = map (fun t => fst entry ++ "/" ++ t) natives
    /\ NoDup natives.

Definition well_named (d : dict Session) : Prop :=
  NoDup (dict_keys d)
  /\ Forall (fun k => no_slash k = true) (dict_keys d)
  /\ Forall provider_named d.

(** ** A scripted world, to run the engine on concrete inputs *)

Module Scripted.

(** The model answers with the turns of a script, one per request. *)
Definition World := list (list Part).

Definition chat (w : World) (model : string) (history : list Message)
  (catalog : list Tool) : list Part * World :=
  match w with
  | [] => ([], [])
  | turn :: rest => (turn, rest)
  end.

(** Every tool answers with its own name, except "boom", which fails. *)
Definition call_tool (w : World) (s : ClientSession) (tool_name : string)
  (args : dict pyval) : CallOutcome * World :=
  if String.eqb tool_name "boom" then (Threw "boom failed", w)
  else (Returned [TextContent ("ok " ++ tool_name)], w).

Definition params_of (t : Transport) : Params :=
  match t with
  | stdio_client p | sse_client p | streamablehttp_client p => p
  end.

Definition token_schema : pyval :=
  PDict [("type", PStr "object");
         ("properties", PDict [("amount", PDict [("type", PStr "number")]);
                               ("token", PDict [("type", PStr "string")])])].

(** A provider lists the tools named in its parameters, comma-separated,
    each with a schema that declares [amount] and [token]. *)
Definition connect (w : World) (t : Transport) : ConnectOutcome * World :=
  let p := params_of t in
  if String.eqb p "down" then (ConnectFailed "connection refused", w)
  else (Connected (String.length p)
          (map (fun n => {| mcp_name := n; mcp_description := None;
                            inputSchema := token_schema |})
               (PyStr.split "," p)), w).

Definition Run := Machine World.

(** A provider that lists one tool, named by its parameters. *)
Definition connect_single (w : World) (t : Transport)
  : ConnectOutcome * World :=
  (Connected (String.length (params_of t))
     [{| mcp_name := params_of t; mcp_description := None;
         inputSchema := token_schema |}], w).

Definition boot (config : ConfigContainer) (w : World) :=
  create connect config w.

Definition send (fuel : nat) (message model token : string) :=
  process_message chat call_tool fuel message model token.

(** Two providers, [wallet] with [topup] and [places] with [nearby]. *)
Definition two_providers : ConfigContainer :=
  {| stdio := [("wallet", "topup"); ("places", "nearby")];
     sse := []; streamable := [] |}.

Definition call (name : string) (args : dict pyval) : Part :=
  {| part_content := EmptyString;
     tool_calls := [{| call_name := name; arguments := args |}] |}.

Definition say (text : string) : Part :=
  {| part_content := text; tool_calls := [] |}.

(** The client after [create two_providers] and [prepare_prompt]. *)
Definition ready (w : World) : Run :=
  let m := snd (boot two_providers w) in
  {| self := prepare_prompt (self m); world := world m; io := [];
     yielded := [] |}.

Definition with_client (f : Client -> Client) (m : Run) : Run :=
  {| self := f (self m); world := world m; io := io m;
     yielded := yielded m |}.

End Scripted.

(** ** Further vocabulary: runs, logs and registries *)

(** Both lookups of lines 245-247 succeed for the call. *)
Definition routed (c : Client) (tool : ToolCall) : bool :=
  match route c (call_name tool) with
  | Some _ => true
  | None => false
  end.

(** What lines 245-247 raise for a call that is not routed: [KeyError] for
    a provider that is not selected, [IndexError] for a name without '/'
    that happens to be a selected provider. *)
Definition routing_error (c : Client) (tool : ToolCall) : exn :=
  let provider := hd EmptyString (PyStr.split "/" (call_name tool)) in
  match dict_get (selected c) provider with
  | None => KeyError provider
  | Some _ => IndexError "list index out of range"
  end.

Definition has_role (r : string) (ev : ChatResponse) : bool :=
  String.eqb (cr_role ev) r.

Definition count_role (r : string) (evs : list ChatResponse) : nat :=
  List.length (filter (has_role r) evs).

(** The texts of the tool-result events of a stream, in order. *)
Definition result_texts (evs : list ChatResponse) : list string :=
  map cr_content (filter (has_role "tool") evs).

(** The three shapes of event that the loop builds. *)
Definition event_ok (ev : ChatResponse) : Prop :=
  (cr_role ev = "assistant" /\ cr_content ev <> EmptyString
   /\ cr_tool_name ev = None /\ cr_tool_status ev = None)
  \/ (cr_role ev = "status" /\ cr_tool_status ev = Some "calling"
      /\ exists name, cr_tool_name ev = Some name
                      /\ cr_content ev = "Calling tool: " ++ name)
  \/ (cr_role ev = "tool" /\ cr_tool_name ev = None
      /\ cr_tool_status ev = None).

(** From [m] to [m']: the events [evs] were yielded and the requests [ios]
    made; the registry and the token stayed; the history grew by the texts
    of the result events, as tool turns; no more results than provider
    calls, no more provider calls than calling statuses. *)
Definition grows {World : Type} (m m' : Machine World)
  (evs : list ChatResponse) (ios : list IO) : Prop :=
  same_registry (self m) (self m')
  /\ yielded m' = (yielded m ++ evs)%list
  /\ io m' = (io m ++ ios)%list
  /\ messages (self m')
     = (messages (self m) ++ map tool_turn (result_texts evs))%list
  /\ Forall event_ok evs
  /\ count_role "tool" evs <= calls_made ios
  /\ calls_made ios <= count_role "status" evs.

(** As many results as provider calls as calling statuses. *)
Definition balanced (evs : list ChatResponse) (ios : list IO) : Prop :=
  count_role "tool" evs = calls_made ios
  /\ calls_made ios = count_role "status" evs.

(** The requests of a run of [_recursive_prompt] from history [h]: turn
    after turn, a model request on the history so far, with the same model
    and catalog, then the provider calls of the turn; the history of the next
    request is this one plus tool turns; a further turn only follows provider
    calls. *)
Inductive run_log (model : string) (catalog : list Tool)
  : list Message -> list IO -> Prop :=
| log_none (h : list Message) : run_log model catalog h []
| log_turn (h : list Message) (calls : list IO) (texts : list string)
    (rest : list IO) :
    forallb is_call calls = true ->
    (rest <> [] -> calls <> []) ->
    run_log model catalog (h ++ map tool_turn texts)%list rest ->
    run_log model catalog h (IoChat model h catalog :: calls ++ rest)%list.

(** The clients that [_connect_to_multiple_servers] builds, in the order
    in which it enters them. *)
Definition transports (config : ConfigContainer) : list Transport :=
  (map (fun entry => stdio_client (snd entry)) (stdio config)
     ++ map (fun entry => sse_client (snd entry)) (sse config)
     ++ map (fun entry => streamablehttp_client (snd entry))
          (streamable config))%list.

(** Every descriptor of the entry is named "<key>/<native name>". *)
Definition prefixed (entry : string * Session) : Prop :=
  Forall (fun descriptor =>
            exists native,
              fn_name (function descriptor) = fst entry ++ "/" ++ native)
    (tools (snd entry)).

Definition registry_ok (d : dict Session) : Prop :=
  NoDup (dict_keys d) /\ Forall prefixed d.

(** ** Providers whose answer has more than one item *)

Module Bundled.

(** [nearby] is answered with two text items, every other tool with a
    picture followed by its caption. *)
Definition call_tool (w : Scripted.World) (s : ClientSession)
  (tool_name : string) (args : dict pyval) : CallOutcome * Scripted.World :=
  if String.eqb tool_name "nearby"
  then (Returned [TextContent "part one"; TextContent "part two"], w)
  else (Returned [OtherContent "ImageContent"; TextContent "caption"], w).

End Bundled.

(** ** The tool server ([server/server.py]) *)

Module Server.

Inductive Method := GET | POST.

(** What a tool hands to [httpx]: [client.get] or [client.post] with a
    URL, [params=], [json=] and [headers=]. *)
Record Request := {
  method : Method;
  url : string;
  params : option (dict pyval);
  json : option pyval;
  headers : dict string
}.

(** What comes back: a response, with whether [raise_for_status] raises on
    it and the body when it is JSON, or no response at all. *)
Inductive Reply :=
| Response (error_status : bool) (body : option pyval)
| NoResponse (description : string).

Inductive Failure :=
| HTTPStatusError
| JSONDecodeError
| TransportError (description : string).

Section Tools.

(** [BASE_URL], from the environment. *)
Variable BASE_URL : string.

Definition bearer (token : string) : dict string :=
  [("Authorization", "Bearer " ++ token)].

Definition decimal (z : Z) : string := NilZero.string_of_int (Z.to_int z).

Definition topup_saldo (amount : pyval) (token : string) : Request :=
  {| method := POST; url := BASE_URL ++ "/api/wallet/topup";
     params := None; json := Some (PDict [("amount", amount)]);
     headers := bearer token |}.

Definition get_restaurants (token : string) : Request :=
  {| method := GET; url := BASE_URL ++ "/api/restaurants";
     params := None; json := None; headers := bearer token |}.

(** [radius] defaults to 5000 and [keyword] to the empty string. *)
Definition find_nearest_restaurants (latitude longitude : pyval)
  (token : string) (radius : option Z) (keyword : option string) : Request :=
  let radius := match radius with Some r => r | None => 5000%Z end in
  let keyword := match keyword with Some k => k | None => EmptyString end in
  let query := [("latitude", latitude); ("longitude", longitude);
                ("radius", PInt radius)] in
  let query := if nonempty keyword
               then dict_set query "keyword" (PStr keyword)
               else query in
  {| method := GET; url := BASE_URL ++ "/api/restaurants/nearby";
     params := Some query; json := None; headers := bearer token |}.

Definition get_menu (restaurant_id : Z) (token : string) : Request :=
  {| method := GET;
     url := BASE_URL ++ "/api/restaurants/" ++ decimal restaurant_id ++ "/menu";
     params := None; json := None; headers := bearer token |}.

Definition create_order (restaurant_id : Z) (items : list pyval)
  (delivery_address token : string) : Request :=
  {| method := POST; url := BASE_URL ++ "/api/orders";
     params := None;
     json := Some (PDict [("restaurantId", PInt restaurant_id);
                          ("items", PList items);
                          ("deliveryAddress", PStr delivery_address)]);
     headers := bearer token |}.

Definition get_my_orders (token : string) : Request :=
  {| method := GET; url := BASE_URL ++ "/api/orders";
     params := None; json := None; headers := bearer token |}.

Definition get_my_balance (token : string) : Request :=
  {| method := GET; url := BASE_URL ++ "/api/auth/me";
     params := None; json := None; headers := bearer token |}.

Definition get_transaction_history (token : string) : Request :=
  {| method := GET; url := BASE_URL ++ "/api/wallet/transactions";
     params := None; json := None; headers := bearer token |}.

(** The eight tools, each with its arguments other than the token. *)
Inductive Call :=
| TopupSaldo (amount : pyval)
| GetRestaurants
| FindNearestRestaurants (latitude longitude : pyval) (radius : option Z)
    (keyword : option string)
| GetMenu (restaurant_id : Z)
| CreateOrder (restaurant_id : Z) (items : list pyval)
    (delivery_address : string)
| GetMyOrders
| GetMyBalance
| GetTransactionHistory.

(** The function's name. *)
Definition tool_of (call : Call) : string :=
  match call with
  | TopupSaldo _ => "topup_saldo"
  | GetRestaurants => "get_restaurants"
  | FindNearestRestaurants _ _ _ _ => "find_nearest_restaurants"
  | GetMenu _ => "get_menu"
  | CreateOrder _ _ _ => "create_order"
  | GetMyOrders => "get_my_orders"
  | GetMyBalance => "get_my_balance"
  | GetTransactionHistory => "get_transaction_history"
  end.

Definition request_of (call : Call) (token : string) : Request :=
  match call with
  | TopupSaldo amount => topup_saldo amount token
  | GetRestaurants => get_restaurants token
  | FindNearestRestaurants latitude longitude radius keyword =>
      find_nearest_restaurants latitude longitude token radius keyword
  | GetMenu restaurant_id => get_menu restaurant_id token
  | CreateOrder restaurant_id items delivery_address =>
      create_order restaurant_id items delivery_address token
  | GetMyOrders => get_my_orders token
  | GetMyBalance => get_my_balance token
  | GetTransactionHistory => get_transaction_history token
  end.

(** The common end of every tool: send, [res.raise_for_status()],
    [return res.json()]. *)
Definition perform {W : Type} (http : W -> Request -> Reply * W)
  (request : Request) (w : W) : (Failure + pyval) * W :=
  let (reply, w') := http w request in
  match reply with
  | Response false (Some body) => (inr body, w')
  | Response false None => (inl JSONDecodeError, w')
  | Response true _ => (inl HTTPStatusError, w')
  | NoResponse description => (inl (TransportError description), w')
  end.

End Tools.

End Server.

(** * Properties *)

Unset Implicit Arguments.

(** ** Strings and renderings *)

Example py_str_dict_ex :
  py_str_dict [("lat", PInt (-6)); ("token", PStr "bogus")]
  = "{'lat': -6, 'token': 'bogus'}".
Proof. reflexivity. Qed.

Example py_repr_nested_ex :
  py_repr (PDict [("a", PList [PBool true; PNone]); ("b", PDict [])])
  = "{'a': [True, None], 'b': {}}".
Proof. reflexivity. Qed.

Example repr_quote_ex :
  PyStr.repr "it's"
  = String PyStr.dquote ("it's" ++ PyStr.str1 PyStr.dquote).
Proof. reflexivity. Qed.

Example repr_tab_ex :
  PyStr.repr (String (PyStr.chr 9) "oken") = "'\token'".
Proof. reflexivity. Qed.

Example split_ex :
  PyStr.split "/" "a/b/c" = ["a"; "b"; "c"]
  /\ PyStr.split "/" "topup" = ["topup"]
  /\ PyStr.split "/" EmptyString = [EmptyString].
Proof. repeat split. Qed.

Lemma prefix_iff (n h : string) :
  prefix n h = true <-> exists post, h = n ++ post.
Proof.
  revert h; induction n as [|a n IH]; intros h.
  - split; [intros _; exists h; reflexivity | intros _; now destruct h].
  - destruct h as [|b h]; simpl.
    + split; [discriminate | intros [post H]; discriminate].
    + destruct (ascii_dec a b) as [->|Hab].
      * rewrite IH. split; intros [post H]; exists post.
        -- now rewrite H.
        -- now inversion H.
      * split; [discriminate | intros [post H]; inversion H; congruence].
Qed.

Lemma contains_unfold (n h : string) :
  PyStr.contains n h =
  if prefix n h then true
  else match h with
       | EmptyString => false
       | String _ rest => PyStr.contains n rest
       end.
Proof. destruct h; reflexivity. Qed.

(** [contains] decides the substring relation. *)
Lemma contains_iff (n h : string) :
  PyStr.contains n h = true <-> exists pre post, h = pre ++ n ++ post.
Proof.
  split.
  - induction h as [|c h IH]; rewrite contains_unfold;
      destruct (prefix n _) eqn:P.
    + intros _. apply prefix_iff in P as [post ->].
      exists EmptyString, post; reflexivity.
    + discriminate.
    + intros _. apply prefix_iff in P as [post ->].
      exists EmptyString, post; reflexivity.
    + intros H. destruct (IH H) as (pre & post & ->).
      exists (String c pre), post; reflexivity.
  - intros (pre & post & ->). induction pre as [|c pre IH].
    + rewrite contains_unfold.
      replace (prefix n (EmptyString ++ n ++ post)) with true; [reflexivity|].
      symmetry; apply prefix_iff; exists post; reflexivity.
    + rewrite contains_unfold. destruct (prefix n _); [reflexivity|].
      exact IH.
Qed.

Lemma string_app_assoc (a b c : string) : (a ++ b) ++ c = a ++ b ++ c.
Proof. induction a; simpl; congruence. Qed.

Lemma string_app_nil_r (a : string) : a ++ EmptyString = a.
Proof. induction a; simpl; congruence. Qed.

Lemma contains_context (n pre x post : string) :
  PyStr.contains n x = true -> PyStr.contains n (pre ++ x ++ post) = true.
Proof.
  rewrite !contains_iff. intros (a & b & ->).
  exists (pre ++ a), (b ++ post).
  now rewrite !string_app_assoc.
Qed.

Lemma join_In (sep x : string) (l : list string) :
  In x l -> exists pre post, PyStr.join sep l = pre ++ x ++ post.
Proof.
  induction l as [|p l IH]; [contradiction|].
  intros [->|Hin].
  - destruct l as [|q l].
    + exists EmptyString, EmptyString. simpl.
      now rewrite string_app_nil_r.
    + exists EmptyString, (sep ++ PyStr.join sep (q :: l)). reflexivity.
  - destruct (IH Hin) as (pre & post & E).
    destruct l as [|q l]; [contradiction|].
    exists (p ++ sep ++ pre), post.
    change (PyStr.join sep (p :: q :: l))
      with (p ++ sep ++ PyStr.join sep (q :: l)).
    now rewrite E, !string_app_assoc.
Qed.

Lemma dict_get_In {V} (d : dict V) (k : string) (v : V) :
  dict_get d k = Some v -> In (k, v) d.
Proof.
  induction d as [|[k' v'] d IH]; simpl; [discriminate|].
  destruct (String.eqb_spec k' k) as [->|].
  - intros [= ->]. now left.
  - intros H. right. auto.
Qed.

Lemma dict_get_set_same {V} (d : dict V) (k : string) (v : V) :
  dict_get (dict_set d k v) k = Some v.
Proof.
  induction d as [|[k' v'] d IH]; simpl.
  - now rewrite String.eqb_refl.
  - destruct (String.eqb k' k) eqn:E; simpl.
    + now rewrite String.eqb_refl.
    + now rewrite E.
Qed.

Lemma dict_get_set_other {V} (d : dict V) (k k0 : string) (v : V) :
  k0 <> k -> dict_get (dict_set d k v) k0 = dict_get d k0.
Proof.
  intros Hne. induction d as [|[k' v'] d IH]; simpl.
  - destruct (String.eqb_spec k k0); congruence.
  - destruct (String.eqb_spec k' k) as [->|]; simpl.
    + destruct (String.eqb_spec k k0); congruence.
    + now rewrite IH.
Qed.

(** A mapping with the key [token] shows ['token'] in its rendering. *)
Lemma token_key_rendered (args : dict pyval) (v : pyval) :
  dict_get args "token" = Some v ->
  PyStr.contains "token" (py_str_dict args) = true.
Proof.
  intros H. apply dict_get_In in H.
  pose (item := fun kv : string * pyval =>
                  let (k, x) := kv in PyStr.repr k ++ ": " ++ py_repr x).
  assert (Hin : In (item ("token", v)) (map item args)) by now apply in_map.
  destruct (join_In ", " _ _ Hin) as (pre & post & E).
  unfold py_str_dict.
  change (py_repr (PDict args))
    with ("{" ++ PyStr.join ", " (map item args) ++ "}").
  rewrite E, !string_app_assoc.
  change ("{" ++ pre ++ item ("token", v) ++ post ++ "}")
    with (("{" ++ pre) ++ item ("token", v) ++ (post ++ "}")).
  apply contains_context. reflexivity.
Qed.

(** ** The monad and the loops *)

Section EngineFacts.

Variable World : Type.
Variable chat :
  World -> string -> list Message -> list Tool -> list Part * World.
Variable call_tool :
  World -> ClientSession -> string -> dict pyval -> CallOutcome * World.
Variable connect : World -> Transport -> ConnectOutcome * World.

Implicit Types (m : Machine World) (tool : ToolCall) (part : Part).

Lemma bind_ok {A B} (c : M World A) (k : A -> M World B) m a m' :
  c m = (Ok a, m') -> bind c k m = k a m'.
Proof. unfold bind. now intros ->. Qed.

Lemma bind_raise {A B} (c : M World A) (k : A -> M World B) m e m' :
  c m = (Raise e, m') -> bind c k m = (Raise e, m').
Proof. unfold bind. now intros ->. Qed.

Lemma for_yield {A} (f : A -> ChatResponse) (l : list A) m :
  for_ l (fun x => yield (f x)) m
  = (Ok tt, {| self := self m; world := world m; io := io m;
               yielded := (yielded m ++ map f l)%list |}).
Proof.
  revert m. induction l as [|x l IH]; intros [c w i y]; simpl.
  - unfold ret. now rewrite app_nil_r.
  - unfold bind at 1. unfold yield at 1. simpl. rewrite IH. simpl.
    now rewrite <- app_assoc.
Qed.

(** The loop over the results: one event and one history entry each. *)
Lemma for_results (tool_chain : list string) (msgs : list string) m :
  for_ msgs
    (fun tool_message =>
       bind (yield (result_event tool_chain tool_message))
            (fun _ => append_message
                        {| role := "tool"; content := tool_message |})) m
  = (Ok tt,
     {| self := {| servers := servers (self m);
                   selected_server := selected_server (self m);
                   messages := (messages (self m) ++ map tool_turn msgs)%list;
                   user_token := user_token (self m) |};
        world := world m; io := io m;
        yielded := (yielded m ++ map (result_event tool_chain) msgs)%list |}).
Proof.
  revert m. induction msgs as [|t msgs IH]; intros [[sv sel ms tk] w i y]; simpl.
  - unfold ret. now rewrite !app_nil_r.
  - unfold bind at 1. unfold bind at 1. unfold yield at 1. simpl.
    rewrite IH. simpl. now rewrite <- !app_assoc.
Qed.

(** *** The dispatcher, one call *)

Lemma body_unrouted tool m :
  route (self m) (call_name tool) = None ->
  exists e, tool_call_body call_tool tool m = (Raise e, m).
Proof.
  unfold route, tool_call_body. intros H.
  unfold bind at 1. unfold get_self at 1.
  destruct (dict_get _ _) as [s|] eqn:Es.
  - destruct (nth_error _ 1) as [t|] eqn:Et; [discriminate|].
    unfold bind at 1. unfold ret at 1. unfold bind at 1.
    eexists. reflexivity.
  - unfold bind at 1. eexists. reflexivity.
Qed.

Lemma body_routed tool m s t :
  route (self m) (call_name tool) = Some (s, t) ->
  let args := sent_args (self m) tool in
  let out := call_tool (world m) s t args in
  tool_call_body call_tool tool m
  = (Ok (reply tool args (fst out)),
     {| self := self m; world := snd out;
        io := (io m ++ [IoCallTool s t args (fst out)])%list;
        yielded := yielded m |}).
Proof.
  intros H args out. unfold route in H. unfold tool_call_body.
  unfold bind at 1. unfold get_self at 1.
  destruct (dict_get _ _) as [sv|] eqn:Es; [|discriminate].
  destruct (nth_error _ 1) as [t'|] eqn:Et; [|discriminate].
  injection H as <- <-.
  unfold bind at 1. unfold ret at 1. unfold bind at 1. unfold ret at 1.
  unfold try_except, bind, do_call_tool.
  change (with_token (user_token (self m)) (arguments tool)) with args.
  fold out. destruct out as [[content|d] w']; simpl.
  - now destruct content as [|[text|cls] rest].
  - reflexivity.
Qed.

(** *** The dispatcher, a batch *)

Lemma loop_frame (tcs : list ToolCall) :
  forall (acc : list string) m r m',
    tool_call_loop call_tool tcs acc m = (r, m') ->
    self m' = self m /\ yielded m' = yielded m
    /\ exists ios,
        io m' = (io m ++ ios)%list /\ forallb is_call ios = true
        /\ ((exists new, r = Ok (acc ++ new)%list
                         /\ List.length new = List.length tcs
                         /\ List.length ios = List.length tcs)
            \/ (exists e, r = Raise e)).
Proof.
  induction tcs as [|tool rest IH]; intros acc m r m'; cbn [tool_call_loop].
  - intros [= <- <-]. repeat split. exists []. rewrite app_nil_r.
    repeat split. left. exists []. now rewrite app_nil_r.
  - destruct (route (self m) (call_name tool)) as [[s t]|] eqn:R.
    + rewrite (bind_ok _ _ _ _ _ (body_routed tool m s t R)). intros H.
      apply IH in H as (Hs & Hy & ios & Hio & Hc & Hr). simpl in *.
      repeat split; trivial.
      eexists (_ :: ios).
      rewrite Hio, <- app_assoc. split; [reflexivity|]. split; [exact Hc|].
      destruct Hr as [(new & -> & Hn & Hi)|[e ->]].
      * left. eexists (_ :: new). rewrite <- app_assoc. simpl.
        repeat split; congruence.
      * right. now exists e.
    + destruct (body_unrouted tool m R) as [e E].
      rewrite (bind_raise _ _ _ _ _ E). intros [= <- <-]. repeat split.
      exists []. rewrite app_nil_r. repeat split. right. now exists e.
Qed.

(** *** One fragment of the stream *)

Lemma on_part_text (tool_chain : list string) part (n : nat) m :
  nonempty (part_content part) = true ->
  on_part call_tool tool_chain part n m
  = (Ok n, {| self := self m; world := world m; io := io m;
              yielded := (yielded m
                          ++ [assistant_event tool_chain (part_content part)])%list |}).
Proof. unfold on_part. now intros ->. Qed.

Lemma on_part_idle (tool_chain : list string) part (n : nat) m :
  nonempty (part_content part) = false -> tool_calls part = [] ->
  on_part call_tool tool_chain part n m = (Ok n, m).
Proof. unfold on_part. now intros -> ->. Qed.

(** A fragment that is dispatched: the calling statuses of the whole
    batch first, then the dispatcher, then one result event and one history
    entry per message it returned; nothing after the statuses if it raised. *)
Lemma on_part_dispatch (tool_chain : list string) part (n : nat) m r m' :
  dispatches part = true ->
  on_part call_tool tool_chain part n m = (r, m') ->
  exists ios msgs,
    io m' = (io m ++ ios)%list /\ forallb is_call ios = true
    /\ yielded m'
       = (yielded m ++ map (calling_event tool_chain) (tool_calls part)
            ++ map (result_event tool_chain) msgs)%list
    /\ messages (self m') = (messages (self m) ++ map tool_turn msgs)%list
    /\ same_registry (self m) (self m')
    /\ ((r = Ok (S n)
         /\ List.length msgs = List.length (tool_calls part)
         /\ List.length ios = List.length (tool_calls part))
        \/ (exists e, r = Raise e /\ msgs = [])).
Proof.
  unfold dispatches, on_part. intros D.
  apply andb_prop in D as [D1 D2]. apply negb_true_iff in D1. rewrite D1.
  destruct (tool_calls part) as [|tc tcs] eqn:Etc; [discriminate|].
  unfold bind at 1. rewrite for_yield. unfold bind at 1. unfold _tool_call.
  destruct (tool_call_loop call_tool (tc :: tcs) [] _) as [r1 m1] eqn:E.
  apply loop_frame in E as (Hs & Hy & ios & Hio & Hc & Hr). simpl in *.
  destruct Hr as [(new & -> & Hn & Hi)|[e ->]].
  - unfold bind at 1. rewrite for_results. unfold ret.
    intros [= <- <-]. simpl. exists ios, new. rewrite Hs, Hy, Hio. simpl.
    split; [reflexivity|]. split; [exact Hc|].
    split; [now rewrite <- app_assoc|]. split; [reflexivity|].
    split; [now repeat split|]. left. auto.
  - intros [= <- <-]. exists ios, []. rewrite Hs, Hy, Hio. simpl.
    rewrite !app_nil_r.
    split; [reflexivity|]. split; [exact Hc|].
    split; [reflexivity|]. split; [reflexivity|].
    split; [now repeat split|]. right. now exists e.
Qed.

Lemma dispatches_cases part :
  nonempty (part_content part) = true /\ dispatches part = false
  \/ (nonempty (part_content part) = false /\ tool_calls part = []
      /\ dispatches part = false)
  \/ dispatches part = true.
Proof.
  unfold dispatches. destruct (nonempty _); simpl; [now left|].
  destruct (tool_calls part); [right; left|right; right]; auto.
Qed.

Lemma same_registry_refl (c : Client) : same_registry c c.
Proof. now repeat split. Qed.

Lemma same_registry_trans (a b c : Client) :
  same_registry a b -> same_registry b c -> same_registry a c.
Proof. unfold same_registry. intuition congruence. Qed.

Lemma well_tagged_assistant (tool_chain : list string) (text : string) :
  well_tagged tool_chain (assistant_event tool_chain text).
Proof. left. split; [now left | reflexivity]. Qed.

Lemma well_tagged_result (tool_chain : list string) (text : string) :
  well_tagged tool_chain (result_event tool_chain text).
Proof. left. split; [now right | reflexivity]. Qed.

Lemma well_tagged_calling (tool_chain : list string) tool :
  well_tagged tool_chain (calling_event tool_chain tool).
Proof. right. split; [reflexivity|]. now exists (call_name tool). Qed.

Lemma Forall_map_intro {A B} (P : B -> Prop) (f : A -> B) (l : list A) :
  (forall x, P (f x)) -> Forall P (map f l).
Proof. intros H. induction l; simpl; constructor; auto. Qed.

(** *** The stream of one turn *)

(** What one turn does, whatever the stream: the registry and the token
    stay, every event is tagged from [tool_chain], the history grows by tool
    turns only, the outside sees tool calls only, and the count grows
    exactly when a tool call was made. *)
Lemma consume_frame (tool_chain : list string) (stream : list Part) :
  forall (n : nat) m r m',
    consume call_tool tool_chain stream n m = (r, m') ->
    same_registry (self m) (self m')
    /\ (exists evs, yielded m' = (yielded m ++ evs)%list
                    /\ Forall (well_tagged tool_chain) evs)
    /\ (exists texts,
           messages (self m') = (messages (self m) ++ map tool_turn texts)%list)
    /\ (exists ios,
           io m' = (io m ++ ios)%list /\ forallb is_call ios = true
           /\ forall n', r = Ok n' ->
                (n' = n /\ ios = []) \/ (n < n' /\ ios <> []))
    /\ r <> OutOfFuel.
Proof.
  induction stream as [|part rest IH]; intros n m r m'; cbn [consume].
  - intros [= <- <-]. split; [apply same_registry_refl|].
    split; [exists []; now rewrite app_nil_r|].
    split; [exists []; now rewrite app_nil_r|].
    split; [|discriminate].
    exists []. rewrite app_nil_r. repeat split. intros n' [= ->]. now left.
  - destruct (dispatches_cases part) as [[T _]|[(T & C & _)|D]].
    + rewrite (bind_ok _ _ _ _ _ (on_part_text tool_chain part n m T)).
      intros H. apply IH in H as (Hr & (evs & Hy & Ht) & Hm & Hio & Hf).
      simpl in *. split; [exact Hr|]. split; [|auto].
      exists (assistant_event tool_chain (part_content part) :: evs).
      rewrite Hy, <- app_assoc. split; [reflexivity|].
      constructor; [apply well_tagged_assistant | exact Ht].
    + rewrite (bind_ok _ _ _ _ _ (on_part_idle tool_chain part n m T C)).
      apply IH.
    + destruct (on_part call_tool tool_chain part n m) as [r1 m1] eqn:E.
      destruct (on_part_dispatch _ _ _ _ _ _ D E)
        as (ios & msgs & Hio & Hc & Hy & Hm & Hr & Hcase).
      destruct Hcase as [(-> & Hlen & Hilen)|(e & -> & ->)].
      * rewrite (bind_ok _ _ _ _ _ E). intros H.
        apply IH in H
            as (Hr' & (evs & Hy' & Ht) & (texts & Hm') & (ios' & Hio' & Hc' & Hn) & Hf).
        split; [eapply same_registry_trans; eauto|].
        split.
        { eexists. rewrite Hy', Hy, <- !app_assoc. split; [reflexivity|].
          apply Forall_app; split;
            [apply Forall_map_intro, well_tagged_calling|].
          apply Forall_app; split;
            [apply Forall_map_intro, well_tagged_result | exact Ht]. }
        split.
        { exists (msgs ++ texts)%list.
          now rewrite Hm', Hm, map_app, <- app_assoc. }
        split; [|exact Hf].
        exists (ios ++ ios')%list. rewrite Hio', Hio, <- app_assoc.
        split; [reflexivity|]. split.
        { rewrite forallb_app, Hc, Hc'. reflexivity. }
        intros n' ->. right.
        assert (ios <> []) as Hne.
        { unfold dispatches in D. apply andb_prop in D as [_ D].
          destruct (tool_calls part); [discriminate|].
          destruct ios; [discriminate|congruence]. }
        split.
        -- destruct (Hn n' eq_refl) as [[-> _]|[Hlt _]]; lia.
        -- destruct ios; [congruence|discriminate].
      * rewrite (bind_raise _ _ _ _ _ E). intros [= <- <-].
        split; [exact Hr|].
        split.
        { eexists. rewrite Hy. split; [reflexivity|].
          simpl. rewrite app_nil_r.
          apply Forall_map_intro, well_tagged_calling. }
        split; [exists []; exact Hm|].
        split; [|discriminate].
        exists ios. repeat split; trivial. discriminate.
Qed.

(** *** The model request *)

Lemma do_chat_eq (model : string) m :
  do_chat chat model m
  = (Ok (fst (chat (world m) model (messages (self m)) (get_tools (self m)))),
     {| self := self m;
        world := snd (chat (world m) model (messages (self m))
                           (get_tools (self m)));
        io := (io m ++ [IoChat model (messages (self m))
                               (get_tools (self m))])%list;
        yielded := yielded m |}).
Proof. unfold do_chat. now destruct (chat _ _ _ _). Qed.

Lemma calls_made_app (a b : list IO) :
  calls_made (a ++ b) = calls_made a + calls_made b.
Proof. unfold calls_made. now rewrite filter_app, length_app. Qed.

Lemma chats_made_app (a b : list IO) :
  chats_made (a ++ b) = chats_made a + chats_made b.
Proof. unfold chats_made. now rewrite filter_app, length_app. Qed.

Lemma only_calls (ios : list IO) :
  forallb is_call ios = true ->
  calls_made ios = List.length ios /\ chats_made ios = 0.
Proof.
  unfold calls_made, chats_made.
  induction ios as [|e ios IH]; simpl; [auto|].
  destruct e; simpl; try discriminate. intros H.
  destruct (IH H). split; congruence.
Qed.

(** A turn in which no fragment asks for a tool: one assistant event per
    fragment with text, nothing else. *)
Lemma consume_plain (tool_chain : list string) (stream : list Part) :
  Forall (fun part => tool_calls part = []) stream ->
  forall (n : nat) m,
    consume call_tool tool_chain stream n m
    = (Ok n, {| self := self m; world := world m; io := io m;
                yielded := (yielded m
                            ++ map (assistant_event tool_chain)
                                 (filter nonempty (map part_content stream)))%list |}).
Proof.
  induction 1 as [|part rest Hp _ IH]; intros n m; cbn [consume].
  - destruct m; simpl. unfold ret. now rewrite app_nil_r.
  - simpl. destruct (nonempty (part_content part)) eqn:T.
    + rewrite (bind_ok _ _ _ _ _ (on_part_text tool_chain part n m T)).
      rewrite IH. simpl. now rewrite <- app_assoc.
    + rewrite (bind_ok _ _ _ _ _ (on_part_idle tool_chain part n m T Hp)).
      apply IH.
Qed.

(** *** The recursion *)

Lemma prompt_unfold (fuel : nat) (model : string) (tool_chain : list string) m :
  _recursive_prompt chat call_tool (S fuel) model tool_chain m
  = bind (do_chat chat model)
      (fun stream =>
         bind (consume call_tool tool_chain stream 0)
           (fun tool_message_count =>
              if Nat.ltb 0 tool_message_count
              then _recursive_prompt chat call_tool fuel model tool_chain
              else ret tt)) m.
Proof. reflexivity. Qed.

(** Whatever the model does and however long the loop runs, the registry
    stays, the events are tagged from the same [tool_chain], and the history
    grows by tool turns only. *)
Lemma prompt_frame (fuel : nat) (model : string) (tool_chain : list string) :
  forall m r m',
    _recursive_prompt chat call_tool fuel model tool_chain m = (r, m') ->
    same_registry (self m) (self m')
    /\ (exists evs, yielded m' = (yielded m ++ evs)%list
                    /\ Forall (well_tagged tool_chain) evs)
    /\ (exists texts,
           messages (self m') = (messages (self m) ++ map tool_turn texts)%list)
    /\ (exists ios, io m' = (io m ++ ios)%list).
Proof.
  induction fuel as [|fuel IH]; intros m r m'.
  - intros [= <- <-]. split; [apply same_registry_refl|].
    split; [exists []; now rewrite app_nil_r|].
    split; exists []; now rewrite app_nil_r.
  - rewrite prompt_unfold.
    rewrite (bind_ok _ _ _ _ _ (do_chat_eq model m)). cbv beta.
    set (m0 := {| self := self m; world := _; io := _; yielded := _ |}).
    set (stream := fst (chat _ _ _ _)).
    destruct (consume call_tool tool_chain stream 0 m0) as [r1 m1] eqn:E.
    destruct (consume_frame _ _ _ _ _ _ E)
      as (Hr & (evs & Hy & Ht) & (texts & Hm) & (ios & Hio & _ & _) & Hf).
    subst m0; simpl in *.
    assert (Hbase :
              same_registry (self m) (self m1)
              /\ (exists evs, yielded m1 = (yielded m ++ evs)%list
                              /\ Forall (well_tagged tool_chain) evs)
              /\ (exists texts, messages (self m1)
                                = (messages (self m) ++ map tool_turn texts)%list)
              /\ (exists ios, io m1 = (io m ++ ios)%list)).
    { split; [exact Hr|]. split; [now exists evs|]. split; [now exists texts|].
      eexists. rewrite Hio, <- app_assoc. reflexivity. }
    destruct r1 as [count|e|].
    + rewrite (bind_ok _ _ _ _ _ E).
      destruct (Nat.ltb 0 count).
      * intros H. apply IH in H
          as (Hr' & (evs' & Hy' & Ht') & (texts' & Hm') & (ios' & Hio')).
        split; [eapply same_registry_trans; eauto|].
        split.
        { exists (evs ++ evs')%list. rewrite Hy', Hy, <- app_assoc.
          split; [reflexivity|]. apply Forall_app; auto. }
        split.
        { exists (texts ++ texts')%list.
          now rewrite Hm', Hm, map_app, <- app_assoc. }
        eexists. rewrite Hio', Hio, <- !app_assoc. reflexivity.
      * intros [= <- <-]. exact Hbase.
    + rewrite (bind_raise _ _ _ _ _ E). intros [= <- <-]. exact Hbase.
    + congruence.
Qed.



(** A run with fuel left starts with a model request on the current
    history and catalog. *)
Lemma prompt_requests_first (fuel : nat) (model : string)
  (tool_chain : list string) m :
  exists rest,
    io (snd (_recursive_prompt chat call_tool (S fuel) model tool_chain m))
    = (io m ++ IoChat model (messages (self m)) (get_tools (self m)) :: rest)%list.
Proof.
  destruct (_recursive_prompt chat call_tool (S fuel) model tool_chain m)
    as [r m'] eqn:E.
  rewrite prompt_unfold in E.
  rewrite (bind_ok _ _ _ _ _ (do_chat_eq model m)) in E. cbv beta in E.
  set (m0 := {| self := self m; world := _; io := _; yielded := _ |}) in E.
  set (stream := fst (chat _ _ _ _)) in E.
  destruct (consume call_tool tool_chain stream 0 m0) as [r1 m1] eqn:Ec.
  destruct (consume_frame _ _ _ _ _ _ Ec)
    as (_ & _ & _ & (ios & Hio & _ & _) & Hf).
  subst m0; simpl in *.
  destruct r1 as [count|e|]; [|rewrite (bind_raise _ _ _ _ _ Ec) in E|congruence].
  - rewrite (bind_ok _ _ _ _ _ Ec) in E. destruct (Nat.ltb 0 count).
    + apply prompt_frame in E as (_ & _ & _ & (ios' & Hio')).
      exists (ios ++ ios')%list.
      rewrite Hio', Hio, <- !app_assoc. reflexivity.
    + injection E as _ <-. exists ios. rewrite Hio, <- app_assoc. reflexivity.
  - injection E as _ <-. exists ios. rewrite Hio, <- app_assoc. reflexivity.
Qed.

(** ** Drive loop: recursion and termination *)

(** The rule of line 238, for a turn whose stream was read to its end.
    After a turn in which at least one tool call was made the loop runs
    again, from the state the turn left, with the same [tool_chain], and
    that run starts with a new model request; after a turn with no tool call
    the loop returns, having made this one model request and no other.  A
    turn that an exception ends does not come to line 238. *)
Theorem completed_turn_recurses_or_returns (fuel : nat) (model : string)
  (tool_chain : list string) m (count : nat) m1 :
  let history := messages (self m) in
  let catalog := get_tools (self m) in
  let out := chat (world m) model history catalog in
  let m0 := {| self := self m; world := snd out;
               io := (io m ++ [IoChat model history catalog])%list;
               yielded := yielded m |} in
  consume call_tool tool_chain (fst out) 0 m0 = (Ok count, m1) ->
  calls_made (io m0) <= calls_made (io m1)
  /\ (calls_made (io m0) < calls_made (io m1) ->
      _recursive_prompt chat call_tool (S fuel) model tool_chain m
      = _recursive_prompt chat call_tool fuel model tool_chain m1
      /\ forall fuel', exists rest,
           io (snd (_recursive_prompt chat call_tool (S fuel') model
                      tool_chain m1))
           = (io m1 ++ IoChat model (messages (self m1))
                              (get_tools (self m1)) :: rest)%list)
  /\ (calls_made (io m1) = calls_made (io m0) ->
      _recursive_prompt chat call_tool (S fuel) model tool_chain m
      = (Ok tt, m1)
      /\ chats_made (io m1) = S (chats_made (io m))).
Proof.
  intros history catalog out m0 E.
  destruct (consume_frame _ _ _ _ _ _ E)
    as (_ & _ & _ & (ios & Hio & Hc & Hn) & _).
  destruct (only_calls ios Hc) as [Hcalls Hchats].
  assert (Hrun : _recursive_prompt chat call_tool (S fuel) model tool_chain m
                 = if Nat.ltb 0 count
                   then _recursive_prompt chat call_tool fuel model tool_chain m1
                   else (Ok tt, m1)).
  { rewrite prompt_unfold.
    rewrite (bind_ok _ _ _ _ _ (do_chat_eq model m)). cbv beta.
    fold history catalog out m0.
    rewrite (bind_ok _ _ _ _ _ E). now destruct (Nat.ltb 0 count). }
  assert (Hcm : calls_made (io m1) = calls_made (io m0) + List.length ios)
    by now rewrite Hio, calls_made_app, Hcalls.
  assert (Hch : chats_made (io m1) = chats_made (io m) + 1).
  { rewrite Hio, chats_made_app, Hchats. subst m0. simpl.
    rewrite chats_made_app.
    change (chats_made [IoChat model history catalog]) with 1. lia. }
  destruct (Hn count eq_refl) as [[-> ->]|[Hlt Hne]].
  - change (List.length (@nil IO)) with 0 in Hcm.
    split; [lia|]. split; [lia|]. intros _.
    split; [exact Hrun|lia].
  - assert (0 < List.length ios) by (destruct ios; simpl; [congruence|lia]).
    split; [lia|]. split; [|lia]. intros _.
    apply Nat.ltb_lt in Hlt. rewrite Hlt in Hrun. split; [exact Hrun|].
    intros fuel'. apply prompt_requests_first.
Qed.

(** ** Drive loop: an answer without tool calls *)

(** C2, as amended: when no fragment of the model's answer asks for a tool,
    [process_message] returns after one model request, its stream is one
    assistant event per fragment with text and nothing else, and the history
    has grown by the user message alone: the assistant's text is streamed,
    not recorded. *)
Theorem C2_plain_answer (fuel : nat) (message model token : string) m :
  let c1 := asked message token (self m) in
  let out := chat (world m) model (messages c1) (get_tools c1) in
  Forall (fun part => tool_calls part = []) (fst out) ->
  process_message chat call_tool (S fuel) message model token m
  = (Ok tt,
     {| self := c1; world := snd out;
        io := (io m ++ [IoChat model (messages c1) (get_tools c1)])%list;
        yielded := (yielded m
                    ++ map (assistant_event [])
                         (filter nonempty (map part_content (fst out))))%list |})
  /\ messages c1 = (messages (self m) ++ [user_turn message])%list
  /\ Forall (fun ev => cr_role ev = "assistant")
       (map (assistant_event [])
          (filter nonempty (map part_content (fst out)))).
Proof.
  intros c1 out Hplain. split; [|split; [reflexivity|]].
  - unfold process_message.
    change (bind (append_message {| role := "user"; content := message |})
              (fun _ => bind (set_user_token token)
                          (fun _ => _recursive_prompt chat call_tool (S fuel)
                                      model [])) m)
      with (_recursive_prompt chat call_tool (S fuel) model []
              {| self := c1; world := world m; io := io m;
                 yielded := yielded m |}).
    rewrite prompt_unfold.
    rewrite (bind_ok _ _ _ _ _ (do_chat_eq model _)). cbv beta. simpl.
    fold out. rewrite (bind_ok _ _ _ _ _ (consume_plain [] _ Hplain 0 _)).
    reflexivity.
  - apply Forall_map_intro. reflexivity.
Qed.

(** ** Drive loop: how events are tagged *)

(** C4, as amended: every tool-result event of a run carries the incoming
    [tool_chain] itself, absent when it is empty, not the chain extended by
    a tool name; only the calling status carries the chain extended by the
    name it announces.  [process_message] runs with the empty chain, so its
    result events carry no chain and its calling events the one name. *)
Theorem C4_result_keeps_incoming_chain (fuel : nat) (message model token : string)
  (tool_chain : list string) m :
  let tagged chain ev :=
    (cr_role ev = "tool" -> cr_tool_chain ev = chain_or_none chain)
    /\ (cr_role ev = "status" ->
        exists name, cr_tool_name ev = Some name
                     /\ cr_tool_chain ev = Some (chain ++ [name])%list) in
  (exists evs,
      yielded (snd (_recursive_prompt chat call_tool fuel model tool_chain m))
      = (yielded m ++ evs)%list
      /\ Forall (tagged tool_chain) evs)
  /\ (exists evs,
         yielded (snd (process_message chat call_tool fuel message model token m))
         = (yielded m ++ evs)%list
         /\ Forall (tagged []) evs).
Proof.
  intros tagged.
  assert (Hw : forall chain ev, well_tagged chain ev -> tagged chain ev).
  { intros chain ev [[[R|R] C]|[R C]]; split; intros R'; try congruence;
      rewrite R in R'; discriminate. }
  split.
  - destruct (_recursive_prompt chat call_tool fuel model tool_chain m)
      as [r m'] eqn:E.
    apply prompt_frame in E as (_ & (evs & Hy & Ht) & _).
    exists evs. split; [exact Hy|].
    eapply Forall_impl; [apply Hw | exact Ht].
  - unfold process_message.
    change (bind (append_message {| role := "user"; content := message |})
              (fun _ => bind (set_user_token token)
                          (fun _ => _recursive_prompt chat call_tool fuel
                                      model [])) m)
      with (_recursive_prompt chat call_tool fuel model []
              {| self := asked message token (self m); world := world m;
                 io := io m; yielded := yielded m |}).
    destruct (_recursive_prompt chat call_tool fuel model [] _)
      as [r m'] eqn:E.
    apply prompt_frame in E as (_ & (evs & Hy & Ht) & _).
    exists evs. split; [exact Hy|].
    eapply Forall_impl; [apply Hw | exact Ht].
Qed.

(** ** Drive loop: order of the events of a batch *)

(** C6, as amended: for a fragment with N tool-call requests that the loop
    acts on, exactly N calling statuses are emitted, in request order, all
    before any result event of that batch; N results follow when the
    dispatcher returns and none when it raises.  The batches of one turn
    come one after the other, so the statuses of a later batch follow the
    results of an earlier one. *)
Theorem C6_calling_before_results (tool_chain : list string) part (n : nat) m :
  dispatches part = true ->
  let run := on_part call_tool tool_chain part n m in
  let calling := map (calling_event tool_chain) (tool_calls part) in
  exists msgs,
    yielded (snd run)
    = (yielded m ++ calling ++ map (result_event tool_chain) msgs)%list
    /\ List.length calling = List.length (tool_calls part)
    /\ map cr_tool_name calling
       = map (fun tool_call => Some (call_name tool_call)) (tool_calls part)
    /\ Forall (fun ev => cr_role ev = "status"
                         /\ cr_tool_status ev = Some "calling") calling
    /\ Forall (fun ev => cr_role ev = "tool")
         (map (result_event tool_chain) msgs)
    /\ ((fst run = Ok (S n)
         /\ List.length msgs = List.length (tool_calls part))
        \/ (exists e, fst run = Raise e /\ msgs = [])).
Proof.
  intros D run calling. subst run.
  destruct (on_part call_tool tool_chain part n m) as [r m'] eqn:E.
  destruct (on_part_dispatch _ _ _ _ _ _ D E)
    as (ios & msgs & _ & _ & Hy & _ & _ & Hcase).
  exists msgs. simpl. split; [exact Hy|].
  split; [apply length_map|].
  split; [unfold calling; rewrite map_map; reflexivity|].
  split; [apply Forall_map_intro; now split|].
  split; [apply Forall_map_intro; reflexivity|].
  destruct Hcase as [(-> & Hlen & _)|(e & -> & ->)]; [left|right]; eauto.
Qed.

(** ** Dispatcher: the text of a result *)


Lemma sent_args_token (c : Client) tool (tok : string) :
  user_token c = Some tok ->
  token_applies (Some tok) (arguments tool) = true ->
  sent_args c tool = dict_set (arguments tool) "token" (PStr tok).
Proof. unfold sent_args, with_token. now intros -> ->. Qed.


(** ** Dispatcher: the side-channel token *)

Lemma token_applies_iff (token : option string) (args : dict pyval) :
  token_applies token args = true
  <-> exists tok, token = Some tok /\ tok <> EmptyString
                  /\ exists pre post, py_str_dict args = pre ++ "token" ++ post.
Proof.
  unfold token_applies. destruct token as [tok|].
  - rewrite andb_true_iff, negb_true_iff, String.eqb_neq, contains_iff.
    split.
    + intros [Hne Hsub]. now exists tok.
    + intros (tok' & [= <-] & Hne & Hsub). now split.
  - split; [discriminate | intros (tok & H & _); discriminate].
Qed.

Lemma dict_get_retool (g : list Tool -> list Tool) (d : dict Session)
  (k : string) :
  dict_get (map (retool_session g) d) k
  = option_map (fun s => {| session := session s; tools := g (tools s) |})
      (dict_get d k).
Proof.
  induction d as [|[k' s'] d IH]; simpl; [reflexivity|].
  now destruct (String.eqb k' k).
Qed.

Lemma route_retool (g : list Tool -> list Tool) (c : Client) (q : string) :
  route (retool g c) q = route c q.
Proof.
  unfold route.
  replace (selected (retool g c)) with (map (retool_session g) (selected c))
    by (unfold selected, retool; simpl; now destruct (selected_server c)).
  rewrite dict_get_retool. now destruct (dict_get (selected c) _).
Qed.

(** What lines 251-252 do when they apply.  When the arguments of the call
    carry a [token] entry, or more generally show the text 'token' in their
    rendering, and the side channel holds a non-empty token, the token
    entry of the arguments is set to the side channel's value before the
    remote call, whatever the caller had put there; the other entries are
    kept. *)
Theorem token_entry_is_overridden tool m (s : ClientSession) (t tok : string) :
  route (self m) (call_name tool) = Some (s, t) ->
  user_token (self m) = Some tok ->
  tok <> EmptyString ->
  (exists v, dict_get (arguments tool) "token" = Some v)
  \/ PyStr.contains "token" (py_str_dict (arguments tool)) = true ->
  let sent := dict_set (arguments tool) "token" (PStr tok) in
  (exists outcome,
      io (snd (tool_call_body call_tool tool m))
      = (io m ++ [IoCallTool s t sent outcome])%list)
  /\ dict_get sent "token" = Some (PStr tok)
  /\ forall k, k <> "token" -> dict_get sent k = dict_get (arguments tool) k.
Proof.
  intros R Ht Hne Hshown sent.
  assert (Hsub : PyStr.contains "token" (py_str_dict (arguments tool)) = true).
  { destruct Hshown as [[v Hv]|H]; [eapply token_key_rendered; eauto|exact H]. }
  assert (Ha : token_applies (Some tok) (arguments tool) = true).
  { unfold token_applies. rewrite Hsub, andb_true_r.
    apply negb_true_iff, String.eqb_neq, Hne. }
  split; [|split].
  - rewrite (body_routed tool m s t R). simpl.
    rewrite (sent_args_token _ _ _ Ht Ha). eexists. reflexivity.
  - apply dict_get_set_same.
  - intros k Hk. now apply dict_get_set_other.
Qed.

(** C10, as amended: whether the token goes in is decided on the rendering
    of the call's arguments alone.  The token applies exactly when the side
    channel's token is non-empty and the text 'token' occurs somewhere in
    [str(arguments)], be it in a key or inside a value; the arguments sent
    are then the arguments with the token entry set, and otherwise the
    arguments unchanged; the tools' descriptors and their declared schemas
    make no difference.  In particular nothing is put in when the text
    'token' occurs nowhere in the rendering; a call without a token argument
    still gets one when the text occurs elsewhere. *)
Theorem C10_token_condition tool m (s : ClientSession) (t : string) :
  route (self m) (call_name tool) = Some (s, t) ->
  let args := arguments tool in
  let token := user_token (self m) in
  let sent := sent_args (self m) tool in
  (token_applies token args = true
   <-> exists tok, token = Some tok /\ tok <> EmptyString
                   /\ exists pre post, py_str_dict args = pre ++ "token" ++ post)
  /\ (exists outcome,
         io (snd (tool_call_body call_tool tool m))
         = (io m ++ [IoCallTool s t sent outcome])%list)
  /\ (forall tok, token = Some tok -> token_applies token args = true ->
                  sent = dict_set args "token" (PStr tok))
  /\ (token_applies token args = false -> sent = args)
  /\ (PyStr.contains "token" (py_str_dict args) = false -> sent = args)
  /\ (forall g : list Tool -> list Tool,
         io (snd (tool_call_body call_tool tool
                    {| self := retool g (self m); world := world m;
                       io := io m; yielded := yielded m |}))
         = io (snd (tool_call_body call_tool tool m))).
Proof.
  intros R args token sent.
  split; [apply token_applies_iff|].
  split; [rewrite (body_routed tool m s t R); simpl; eexists; reflexivity|].
  split.
  { intros tok Ht Ha. subst token. rewrite Ht in Ha.
    exact (sent_args_token _ _ _ Ht Ha). }
  split.
  { intros Ha. unfold sent, sent_args, with_token. fold token args.
    now rewrite Ha. }
  split.
  { intros Hno. unfold sent, sent_args, with_token, token_applies.
    fold args. rewrite Hno.
    destruct (user_token (self m)); [now rewrite andb_false_r|reflexivity]. }
  intros g.
  rewrite (body_routed tool m s t R).
  rewrite (body_routed tool
             {| self := retool g (self m); world := world m;
                io := io m; yielded := yielded m |} s t
             (eq_trans (route_retool g _ _) R)).
  reflexivity.
Qed.

(** ** Session registry and catalog *)

Lemma bind_ok_inv {A B} (c : M World A) (k : A -> M World B) m (b : B) m' :
  bind c k m = (Ok b, m') ->
  exists a m1, c m = (Ok a, m1) /\ k a m1 = (Ok b, m').
Proof.
  unfold bind. destruct (c m) as [[a|e|] m1]; try discriminate.
  intros H. now exists a, m1.
Qed.

Lemma string_app_inv_head (k a b : string) : k ++ a = k ++ b -> a = b.
Proof. induction k; simpl; intros H; [exact H | injection H; auto]. Qed.

Lemma no_slash_cons (c : ascii) (k : string) :
  no_slash (String c k) = true -> c <> "/"%char /\ no_slash k = true.
Proof.
  unfold no_slash. rewrite contains_unfold.
  change (prefix "/" (String c k))
    with (if ascii_dec "/" c then prefix EmptyString k else false).
  destruct (ascii_dec "/" c) as [<-|Hne].
  - now destruct k.
  - intros H. split; [congruence | exact H].
Qed.

(** A qualified name splits in one way when the provider has no '/'. *)
Lemma qualified_inj (k1 k2 t1 t2 : string) :
  no_slash k1 = true -> no_slash k2 = true ->
  k1 ++ "/" ++ t1 = k2 ++ "/" ++ t2 -> k1 = k2 /\ t1 = t2.
Proof.
  revert k2. induction k1 as [|c1 k1 IH]; intros [|c2 k2] H1 H2 E; simpl in E.
  - injection E as ->. now split.
  - injection E as <- _. apply no_slash_cons in H2 as [H2 _]. congruence.
  - injection E as -> _. apply no_slash_cons in H1 as [H1 _]. congruence.
  - injection E as -> E.
    apply no_slash_cons in H1 as [_ H1]. apply no_slash_cons in H2 as [_ H2].
    destruct (IH k2 H1 H2 E) as [-> ->]. now split.
Qed.

Lemma NoDup_map_inj {A B} (f : A -> B) (l : list A) :
  (forall x y, f x = f y -> x = y) -> NoDup l -> NoDup (map f l).
Proof.
  intros Hinj. induction 1 as [|x l Hx _ IH]; simpl; constructor; trivial.
  rewrite in_map_iff. intros (y & E & Hy). apply Hinj in E. now subst.
Qed.

Lemma dict_keys_filter_incl {V} (f : string * V -> bool) (d : dict V) (k : string) :
  In k (dict_keys (filter f d)) -> In k (dict_keys d).
Proof.
  unfold dict_keys. rewrite !in_map_iff.
  intros (e & <- & He). apply filter_In in He as [He _]. now exists e.
Qed.

Lemma well_named_filter (f : string * Session -> bool) (d : dict Session) :
  well_named d -> well_named (filter f d).
Proof.
  intros (Hk & Hs & Hp). repeat split.
  - clear Hs Hp. induction d as [|[k s] d IH]; simpl; [constructor|].
    inversion Hk as [|? ? Hnin Hnd]; subst.
    destruct (f (k, s)); simpl; [constructor|]; auto.
    intros Hin. apply Hnin. eapply dict_keys_filter_incl; eauto.
  - rewrite Forall_forall in *. intros k Hin.
    apply Hs. eapply dict_keys_filter_incl; eauto.
  - rewrite Forall_forall in *. intros e Hin.
    apply filter_In in Hin as [Hin _]. auto.
Qed.

Lemma catalog_names_from (d : dict Session) (x : string) :
  Forall provider_named d ->
  In x (qualified_names (flat_map tools (dict_values d))) ->
  exists k t, In k (dict_keys d) /\ x = k ++ "/" ++ t.
Proof.
  intros Hp. unfold qualified_names. rewrite in_map_iff.
  intros (tool & <- & Hin). apply in_flat_map in Hin as (s & Hs & Htool).
  unfold dict_values in Hs. apply in_map_iff in Hs as ([k s'] & <- & He).
  rewrite Forall_forall in Hp. destruct (Hp _ He) as (natives & Hn & _).
  simpl in *.
  assert (Hx : In (fn_name (function tool)) (qualified_names (tools s')))
    by (unfold qualified_names;
        now apply (in_map (fun t => fn_name (function t)))).
  rewrite Hn in Hx. apply in_map_iff in Hx as (t & <- & _).
  exists k, t. split; [|reflexivity].
  unfold dict_keys. apply in_map_iff. now exists (k, s').
Qed.

(** In a well-named registry no two descriptors share a qualified name. *)
Lemma well_named_NoDup (d : dict Session) :
  well_named d -> NoDup (qualified_names (flat_map tools (dict_values d))).
Proof.
  induction d as [|[k s] d IH]; intros (Hk & Hs & Hp); simpl; [constructor|].
  inversion Hk as [|? ? Hnin Hnd]; subst.
  inversion Hs as [|? ? Hks Hs']; subst.
  inversion Hp as [|? ? Hpk Hp']; subst.
  unfold qualified_names. rewrite map_app. apply NoDup_app.
  - destruct Hpk as (natives & Hn & Hnd'). simpl in Hn.
    unfold qualified_names in Hn. rewrite Hn.
    apply NoDup_map_inj; [|exact Hnd'].
    intros x y E. now apply string_app_inv_head in E as [= ->].
  - apply IH. now repeat split.
  - intros x Hx Hx'.
    destruct Hpk as (natives & Hn & _). simpl in Hn.
    unfold qualified_names in Hn. rewrite Hn in Hx.
    apply in_map_iff in Hx as (t1 & <- & _).
    destruct (catalog_names_from d _ Hp' Hx') as (k2 & t2 & Hk2 & E).
    rewrite Forall_forall in Hs'.
    destruct (qualified_inj _ _ _ _ Hks (Hs' _ Hk2) E) as [-> _].
    contradiction.
Qed.

Lemma dict_set_keys_incl {V} (d : dict V) (k x : string) (v : V) :
  In x (dict_keys (dict_set d k v)) -> x = k \/ In x (dict_keys d).
Proof.
  induction d as [|[k' v'] d IH]; simpl.
  - intros [<-|[]]. now left.
  - destruct (String.eqb_spec k' k) as [->|Hne]; simpl.
    + intros [<-|H]; auto.
    + intros [<-|H]; auto. destruct (IH H); auto.
Qed.

Lemma well_named_set (d : dict Session) (k : string) (s : Session) :
  well_named d -> no_slash k = true -> provider_named (k, s) ->
  well_named (dict_set d k s).
Proof.
  intros (Hk & Hs & Hp) Hslash Hnamed.
  induction d as [|[k' s'] d IH]; simpl.
  - repeat split; repeat constructor; auto.
  - inversion Hk as [|? ? Hnin Hnd]; subst.
    inversion Hs as [|? ? Hks Hs']; subst.
    inversion Hp as [|? ? Hpk Hp']; subst.
    destruct (String.eqb_spec k' k) as [->|Hne].
    + repeat split; simpl; try constructor; auto.
    + destruct (IH Hnd Hs' Hp') as (Hk2 & Hs2 & Hp2).
      repeat split; simpl; constructor; auto.
      intros Hin. apply dict_set_keys_incl in Hin as [->|Hin]; auto.
Qed.

Lemma connect_entry_ok (mk : Params -> Transport) (entry : string * Params)
  m m' :
  connect_entry connect mk entry m = (Ok tt, m') ->
  lists_distinct connect ->
  exists s,
    servers (self m') = dict_set (servers (self m)) (fst entry) s
    /\ provider_named (fst entry, s)
    /\ selected_server (self m') = selected_server (self m).
Proof.
  unfold connect_entry, _connect_client, bind, do_connect, ret, set_server,
    bind, get_self, set_self.
  destruct (connect (world m) (mk (snd entry))) as [[s listed|d] w] eqn:E;
    simpl; [|discriminate].
  intros [= <-] Hd. eexists. simpl. split; [reflexivity|]. split; [|reflexivity].
  exists (map mcp_name listed). simpl. split.
  - unfold qualified_names. now rewrite !map_map.
  - eapply Hd; eauto.
Qed.

Lemma for_connect (mk : Params -> Transport) (entries : dict Params) :
  forall m m',
    for_ entries (connect_entry connect mk) m = (Ok tt, m') ->
    lists_distinct connect ->
    Forall (fun k => no_slash k = true) (dict_keys entries) ->
    well_named (servers (self m)) -> well_named (servers (self m')).
Proof.
  induction entries as [|entry rest IH]; intros m m'; cbn [for_].
  - now intros [= <-].
  - intros H Hd Hs Hw. apply bind_ok_inv in H as ([] & m1 & H1 & H2).
    inversion Hs as [|? ? Hk Hs']; subst.
    destruct (connect_entry_ok _ _ _ _ H1 Hd) as (s & Hsv & Hn & _).
    apply (IH m1 m' H2 Hd Hs'). rewrite Hsv. now apply well_named_set.
Qed.

(** A registry that came up is well named, when the configuration and the
    providers are, and selects the registry itself. *)
Lemma connect_all_ok (config : ConfigContainer) m m' :
  _connect_to_multiple_servers connect config m = (Ok tt, m') ->
  selected_server (self m') = SameAsServers
  /\ (lists_distinct connect ->
      Forall (fun k => no_slash k = true) (config_names config) ->
      well_named (servers (self m)) -> well_named (servers (self m'))).
Proof.
  unfold _connect_to_multiple_servers. intros H.
  apply bind_ok_inv in H as ([] & m1 & H1 & H).
  apply bind_ok_inv in H as ([] & m2 & H2 & H).
  apply bind_ok_inv in H as ([] & m3 & H3 & H).
  unfold select_all, bind, get_self, set_self in H. injection H as <-.
  simpl. split; [reflexivity|].
  intros Hd Hs Hw. unfold config_names in Hs.
  apply Forall_app in Hs as [Hs1 Hs]. apply Forall_app in Hs as [Hs2 Hs3].
  eapply for_connect; eauto. eapply for_connect; eauto.
  eapply for_connect; eauto.
Qed.

Lemma well_named_nil : well_named [].
Proof. repeat split; constructor. Qed.

(** C5, as amended: [select_server] never fails and never reports a name
    that is not registered: the active set becomes the registered providers
    whose names are in the list, in registry order, and the other names are
    ignored; the registry itself is unchanged.  A client that [create]
    returned has all registered providers active. *)
Theorem C5_select_filters (config : ConfigContainer) (w : World)
  (c : Client) (names : list string) :
  fst (create connect config w) = Ok tt ->
  let created := self (snd (create connect config w)) in
  selected_server created = SameAsServers
  /\ selected created = servers created
  /\ selected (select_server names c)
     = filter (fun entry => name_in (fst entry) names) (servers c)
  /\ servers (select_server names c) = servers c
  /\ forall k, In k (dict_keys (selected (select_server names c)))
               <-> In k names /\ In k (dict_keys (servers c)).
Proof.
  intros Hok created. subst created.
  unfold create in *.
  destruct (_connect_to_multiple_servers connect config (fresh w))
    as [r m'] eqn:E.
  simpl in *. subst r. destruct (connect_all_ok _ _ _ E) as [Hsel _].
  split; [exact Hsel|]. split; [unfold selected; now rewrite Hsel|].
  split; [reflexivity|]. split; [reflexivity|].
  intros k. unfold selected, dict_keys. simpl. rewrite !in_map_iff. split.
  - intros ([k' s] & <- & Hin). apply filter_In in Hin as [Hin Hn].
    simpl in *. split.
    + unfold name_in in Hn. apply existsb_exists in Hn as (x & Hx & Ex).
      apply String.eqb_eq in Ex. now subst.
    + now exists (k', s).
  - intros [Hn ([k' s] & <- & Hin)]. exists (k', s). split; [reflexivity|].
    apply filter_In. split; [exact Hin|]. simpl.
    apply existsb_exists. exists k'. split; [exact Hn|apply String.eqb_refl].
Qed.

(** C7, as amended: the catalog is the concatenation of the active
    sessions' descriptors in registry-insertion order, computed from the
    current selection on every call, so that a deselected provider's tools
    are gone at once.  It has no duplicate qualified names provided no
    provider name contains '/' and no provider lists a tool name twice; the
    engine itself removes no duplicates. *)
Theorem C7_catalog (config : ConfigContainer) (w : World)
  (names : list string) :
  fst (create connect config w) = Ok tt ->
  Forall (fun k => no_slash k = true) (config_names config) ->
  lists_distinct connect ->
  let created := self (snd (create connect config w)) in
  let active := select_server names created in
  get_tools created = flat_map tools (dict_values (servers created))
  /\ get_tools active
     = flat_map tools
         (dict_values (filter (fun entry => name_in (fst entry) names)
                         (servers created)))
  /\ NoDup (qualified_names (get_tools created))
  /\ NoDup (qualified_names (get_tools active))
  /\ (forall descriptor,
         In descriptor (get_tools active)
         <-> exists k s, In (k, s) (servers created)
                         /\ name_in k names = true
                         /\ In descriptor (tools s))
  /\ forall names',
      get_tools (select_server names' active)
      = get_tools (select_server names' created).
Proof.
  intros Hok Hs Hd created active. subst active created.
  unfold create in *.
  destruct (_connect_to_multiple_servers connect config (fresh w))
    as [r m'] eqn:E.
  simpl in *. subst r.
  destruct (connect_all_ok _ _ _ E) as [Hsel Hw].
  specialize (Hw Hd Hs well_named_nil).
  assert (Hall : get_tools (self m')
                 = flat_map tools (dict_values (servers (self m'))))
    by (unfold get_tools, selected; now rewrite Hsel).
  split; [exact Hall|]. split; [reflexivity|].
  split; [rewrite Hall; now apply well_named_NoDup|].
  split; [apply well_named_NoDup; now apply well_named_filter|].
  split; [|reflexivity].
  intros descriptor. unfold get_tools, selected, dict_values. simpl.
  rewrite in_flat_map. split.
  - intros (s & Hin & Ht). apply in_map_iff in Hin as ([k s'] & <- & Hin).
    apply filter_In in Hin as [Hin Hn]. now exists k, s'.
  - intros (k & s & Hin & Hn & Ht). exists s. split; [|exact Ht].
    apply in_map_iff. exists (k, s). split; [reflexivity|].
    apply filter_In. now split.
Qed.

End EngineFacts.

(** * Further properties of the engine *)

Section MoreFacts.

Variable World : Type.
Variable chat :
  World -> string -> list Message -> list Tool -> list Part * World.
Variable call_tool :
  World -> ClientSession -> string -> dict pyval -> CallOutcome * World.
Variable connect : World -> Transport -> ConnectOutcome * World.

Implicit Types (m : Machine World) (tool : ToolCall) (part : Part)
  (c : Client).

(** ** Routing depends on the selection only *)

Lemma selected_same_registry c c' :
  same_registry c c' -> selected c' = selected c.
Proof. intros (Hs & Hsel & _). unfold selected. now rewrite Hs, Hsel. Qed.

Lemma route_same_registry c c' (q : string) :
  same_registry c c' -> route c' q = route c q.
Proof. intros H. unfold route. now rewrite (selected_same_registry _ _ H). Qed.

Lemma get_tools_same_registry c c' :
  same_registry c c' -> get_tools c' = get_tools c.
Proof. intros H. unfold get_tools. now rewrite (selected_same_registry _ _ H). Qed.

Lemma routed_true c tool :
  routed c tool = true -> exists s t, route c (call_name tool) = Some (s, t).
Proof.
  unfold routed. destruct (route c (call_name tool)) as [[s t]|];
    [now exists s, t | discriminate].
Qed.

Lemma routed_false c tool :
  routed c tool = false -> route c (call_name tool) = None.
Proof. unfold routed. now destruct (route c (call_name tool)). Qed.

(** ** The dispatcher on calls that are not routed *)

Lemma body_unrouted_exact tool m :
  route (self m) (call_name tool) = None ->
  tool_call_body call_tool tool m = (Raise (routing_error (self m) tool), m).
Proof.
  unfold route, routing_error, tool_call_body. intros H.
  unfold bind at 1. unfold get_self at 1.
  destruct (dict_get _ _) as [s|] eqn:Es.
  - destruct (nth_error _ 1) as [t|] eqn:Et; [discriminate|].
    unfold bind at 1. unfold ret at 1. unfold bind at 1. reflexivity.
  - unfold bind at 1. reflexivity.
Qed.

Lemma first_unrouted c (tcs : list ToolCall) :
  Forall (fun tool => routed c tool = true) tcs
  \/ exists pre bad post,
      tcs = (pre ++ bad :: post)%list
      /\ Forall (fun tool => routed c tool = true) pre
      /\ routed c bad = false.
Proof.
  induction tcs as [|tool rest IH]; [left; constructor|].
  destruct (routed c tool) eqn:R.
  - destruct IH as [IH|(pre & bad & post & -> & Hpre & Hbad)].
    + left. now constructor.
    + right. exists (tool :: pre), bad, post. repeat split; trivial.
      now constructor.
  - right. exists [], tool, rest. repeat split; trivial.
Qed.

(** A batch whose calls are all routed goes through, whatever the
    providers answer. *)
Lemma loop_all_routed (tcs : list ToolCall) :
  forall (acc : list string) m,
    Forall (fun tool => routed (self m) tool = true) tcs ->
    exists msgs m1, tool_call_loop call_tool tcs acc m = (Ok msgs, m1).
Proof.
  induction tcs as [|tool rest IH]; intros acc m H; cbn [tool_call_loop].
  - now exists acc, m.
  - inversion H as [|? ? Ht Hrest]; subst.
    destruct (routed_true _ _ Ht) as (s & t & R).
    rewrite (bind_ok World _ _ _ _ _ (body_routed World call_tool tool m s t R)).
    apply IH. exact Hrest.
Qed.

(** A batch stops at its first call that is not routed: the calls before
    it were made, and the outcome is the lookup's exception. *)
Lemma loop_stops (pre : list ToolCall) :
  forall tool (post : list ToolCall) (acc : list string) m,
    Forall (fun t => routed (self m) t = true) pre ->
    routed (self m) tool = false ->
    exists m1 ios,
      tool_call_loop call_tool (pre ++ tool :: post) acc m
      = (Raise (routing_error (self m) tool), m1)
      /\ self m1 = self m /\ yielded m1 = yielded m
      /\ io m1 = (io m ++ ios)%list /\ forallb is_call ios = true
      /\ List.length ios = List.length pre.
Proof.
  induction pre as [|t0 pre IH]; intros tool post acc m Hpre Hbad;
    cbn [app tool_call_loop].
  - rewrite (bind_raise World _ _ _ _ _
               (body_unrouted_exact tool m (routed_false _ _ Hbad))).
    exists m, []. rewrite app_nil_r. repeat split.
  - inversion Hpre as [|? ? Ht Hrest]; subst.
    destruct (routed_true _ _ Ht) as (s & t & R).
    rewrite (bind_ok World _ _ _ _ _ (body_routed World call_tool t0 m s t R)).
    set (m0 := {| self := self m; world := _; io := _; yielded := _ |}).
    destruct (IH tool post (acc ++ [reply t0 (sent_args (self m) t0)
                                      (fst (call_tool (world m) s t
                                              (sent_args (self m) t0)))])%list
                m0 Hrest Hbad)
      as (m1 & ios & E & Hs & Hy & Hio & Hc & Hlen).
    exists m1. eexists (_ :: ios). split; [exact E|].
    subst m0; simpl in *. rewrite Hio, <- app_assoc.
    repeat split; trivial. simpl. now rewrite Hlen.
Qed.

(** ** A fragment whose batch is routed, and one whose batch is not *)

Lemma on_part_routed (tool_chain : list string) part (n : nat) m :
  dispatches part = true ->
  Forall (fun tool => routed (self m) tool = true) (tool_calls part) ->
  exists m', on_part call_tool tool_chain part n m = (Ok (S n), m').
Proof.
  intros D H.
  destruct (on_part call_tool tool_chain part n m) as [r m'] eqn:E.
  exists m'. f_equal.
  revert E. unfold dispatches, on_part in *.
  apply andb_prop in D as [D1 D2]. apply negb_true_iff in D1. rewrite D1.
  destruct (tool_calls part) as [|tc tcs] eqn:Etc; [discriminate|].
  unfold bind at 1. rewrite for_yield. unfold bind at 1. unfold _tool_call.
  match goal with
  | |- context [tool_call_loop call_tool (tc :: tcs) [] ?m0] =>
      destruct (loop_all_routed (tc :: tcs) [] m0 H) as (msgs & m1 & ->)
  end.
  unfold bind at 1. rewrite for_results. unfold ret. now intros [= <- _].
Qed.

Lemma on_part_unrouted (tool_chain : list string) part (n : nat) m
  (pre post : list ToolCall) tool :
  dispatches part = true ->
  tool_calls part = (pre ++ tool :: post)%list ->
  Forall (fun t => routed (self m) t = true) pre ->
  routed (self m) tool = false ->
  exists m' ios,
    on_part call_tool tool_chain part n m
    = (Raise (routing_error (self m) tool), m')
    /\ self m' = self m
    /\ yielded m'
       = (yielded m ++ map (calling_event tool_chain) (tool_calls part))%list
    /\ io m' = (io m ++ ios)%list /\ forallb is_call ios = true
    /\ List.length ios = List.length pre.
Proof.
  intros D Etc Hpre Hbad. unfold dispatches, on_part in *.
  apply andb_prop in D as [D1 D2]. apply negb_true_iff in D1. rewrite D1.
  destruct (tool_calls part) as [|tc tcs] eqn:Etc'; [discriminate|].
  unfold bind at 1. rewrite for_yield. unfold bind at 1. unfold _tool_call.
  rewrite Etc.
  match goal with
  | |- context [tool_call_loop call_tool _ [] ?m0] =>
      destruct (loop_stops pre tool post [] m0 Hpre Hbad)
        as (m1 & ios & -> & Hs & Hy & Hio & Hc & Hlen)
  end.
  exists m1, ios. simpl in *. now rewrite Hs, Hy, Hio.
Qed.

(** ** Counting events and requests *)

Lemma result_texts_app (a b : list ChatResponse) :
  result_texts (a ++ b) = (result_texts a ++ result_texts b)%list.
Proof. unfold result_texts. now rewrite filter_app, map_app. Qed.

Lemma count_role_app (r : string) (a b : list ChatResponse) :
  count_role r (a ++ b) = count_role r a + count_role r b.
Proof. unfold count_role. now rewrite filter_app, length_app. Qed.

Lemma calling_events_summary (tool_chain : list string) (tcs : list ToolCall) :
  result_texts (map (calling_event tool_chain) tcs) = []
  /\ count_role "tool" (map (calling_event tool_chain) tcs) = 0
  /\ count_role "status" (map (calling_event tool_chain) tcs)
     = List.length tcs
  /\ Forall event_ok (map (calling_event tool_chain) tcs).
Proof.
  unfold result_texts, count_role.
  induction tcs as [|tc tcs (H1 & H2 & H3 & H4)]; simpl.
  - repeat split; constructor.
  - repeat split; trivial; [simpl; congruence|].
    constructor; [|exact H4]. right. left. split; [reflexivity|].
    split; [reflexivity|]. now exists (call_name tc).
Qed.

Lemma result_events_summary (tool_chain : list string) (msgs : list string) :
  result_texts (map (result_event tool_chain) msgs) = msgs
  /\ count_role "tool" (map (result_event tool_chain) msgs)
     = List.length msgs
  /\ count_role "status" (map (result_event tool_chain) msgs) = 0
  /\ Forall event_ok (map (result_event tool_chain) msgs).
Proof.
  unfold result_texts, count_role.
  induction msgs as [|t msgs (H1 & H2 & H3 & H4)]; simpl.
  - repeat split; constructor.
  - repeat split; trivial; [congruence|simpl; congruence|].
    constructor; [|exact H4]. right. right. repeat split.
Qed.

Lemma nonempty_true (s : string) : nonempty s = true -> s <> EmptyString.
Proof.
  unfold nonempty. rewrite negb_true_iff. apply String.eqb_neq.
Qed.

Lemma grows_refl m : grows m m [] [].
Proof.
  unfold grows. rewrite !app_nil_r.
  split; [apply same_registry_refl|]. repeat split; trivial; constructor.
Qed.

Lemma grows_trans m1 m2 m3 (evs1 evs2 : list ChatResponse)
  (ios1 ios2 : list IO) :
  grows m1 m2 evs1 ios1 -> grows m2 m3 evs2 ios2 ->
  grows m1 m3 (evs1 ++ evs2) (ios1 ++ ios2).
Proof.
  intros (R1 & Y1 & I1 & M1 & E1 & A1 & B1) (R2 & Y2 & I2 & M2 & E2 & A2 & B2).
  unfold grows.
  rewrite Y2, Y1, I2, I1, M2, M1, result_texts_app, map_app, !count_role_app,
    calls_made_app, <- !app_assoc.
  split; [eapply same_registry_trans; eauto|].
  repeat split; trivial; [apply Forall_app; now split | lia | lia].
Qed.

Lemma balanced_app (evs1 evs2 : list ChatResponse) (ios1 ios2 : list IO) :
  balanced evs1 ios1 -> balanced evs2 ios2 ->
  balanced (evs1 ++ evs2) (ios1 ++ ios2).
Proof.
  unfold balanced. rewrite !count_role_app, calls_made_app. lia.
Qed.

(** ** What one fragment, one turn and one run add *)

Lemma on_part_grows (tool_chain : list string) part (n : nat) m r m' :
  on_part call_tool tool_chain part n m = (r, m') ->
  exists evs ios,
    grows m m' evs ios /\ forallb is_call ios = true
    /\ (forall n', r = Ok n' -> balanced evs ios)
    /\ r <> OutOfFuel.
Proof.
  intros E. destruct (dispatches_cases part) as [[T _]|[(T & C & _)|D]].
  - rewrite (on_part_text World call_tool tool_chain part n m T) in E.
    injection E as <- <-.
    exists [assistant_event tool_chain (part_content part)], [].
    split; [|repeat split; discriminate].
    unfold grows. simpl. rewrite !app_nil_r.
    split; [apply same_registry_refl|]. repeat split; trivial.
    constructor; [|constructor]. left. repeat split.
    now apply nonempty_true.
  - rewrite (on_part_idle World call_tool tool_chain part n m T C) in E.
    injection E as <- <-. exists [], [].
    split; [apply grows_refl|]. repeat split; discriminate.
  - destruct (calling_events_summary tool_chain (tool_calls part))
      as (Ct & Cn & Cs & Ce).
    destruct (first_unrouted (self m) (tool_calls part))
      as [Hall|(pre & bad & post & Etc & Hpre & Hbad)].
    + destruct (on_part_routed tool_chain part n m D Hall) as (m0 & E0).
      rewrite E0 in E. injection E as <- <-.
      destruct (on_part_dispatch World call_tool _ _ _ _ _ _ D E0)
        as (ios & msgs & Hio & Hc & Hy & Hm & Hr & Hcase).
      destruct Hcase as [(_ & Hlen & Hilen)|(e & He & _)]; [|discriminate].
      destruct (result_events_summary tool_chain msgs) as (Rt & Rn & Rs & Re).
      destruct (only_calls ios Hc) as [Hcalls _].
      exists (map (calling_event tool_chain) (tool_calls part)
                ++ map (result_event tool_chain) msgs)%list, ios.
      split; [|split; [exact Hc|split; [|discriminate]]].
      * unfold grows.
        rewrite result_texts_app, Ct, Rt, !count_role_app, Cn, Cs, Rn, Rs,
          Hcalls.
        repeat split; trivial; [apply Hr | apply Hr | apply Hr | | lia | lia].
        apply Forall_app; now split.
      * intros _ _. unfold balanced.
        rewrite !count_role_app, Cn, Cs, Rn, Rs, Hcalls. lia.
    + destruct (on_part_unrouted tool_chain part n m pre post bad
                  D Etc Hpre Hbad)
        as (m0 & ios & E0 & Hs & Hy & Hio & Hc & Hlen).
      rewrite E0 in E. injection E as <- <-.
      destruct (only_calls ios Hc) as [Hcalls _].
      exists (map (calling_event tool_chain) (tool_calls part)), ios.
      split; [|repeat split; trivial; discriminate].
      unfold grows. split; [rewrite Hs; apply same_registry_refl|].
      split; [exact Hy|]. split; [exact Hio|].
      split; [rewrite Hs, Ct; simpl; now rewrite app_nil_r|].
      split; [exact Ce|]. rewrite Cn, Cs, Hcalls, Hlen.
      split; [lia|]. rewrite Etc, length_app. simpl. lia.
Qed.

Lemma consume_grows (tool_chain : list string) (stream : list Part) :
  forall (n : nat) m r m',
    consume call_tool tool_chain stream n m = (r, m') ->
    exists evs ios,
      grows m m' evs ios /\ forallb is_call ios = true
      /\ (forall n', r = Ok n' ->
            balanced evs ios
            /\ ((n' = n /\ ios = []) \/ (n < n' /\ ios <> [])))
      /\ r <> OutOfFuel.
Proof.
  intros n m r m' E.
  assert (H : exists evs ios,
             grows m m' evs ios /\ forallb is_call ios = true
             /\ (forall n', r = Ok n' -> balanced evs ios)
             /\ r <> OutOfFuel).
  { revert n m r m' E.
    induction stream as [|part rest IH]; intros n m r m'; cbn [consume].
    - intros [= <- <-]. exists [], [].
      split; [apply grows_refl|]. repeat split; discriminate.
    - destruct (on_part call_tool tool_chain part n m) as [r1 m1] eqn:E1.
      destruct (on_part_grows _ _ _ _ _ _ E1) as (evs1 & ios1 & G1 & C1 & B1 & F1).
      destruct r1 as [n1|e|]; [| |congruence].
      + rewrite (bind_ok World _ _ _ _ _ E1). intros E2.
        destruct (IH _ _ _ _ E2) as (evs2 & ios2 & G2 & C2 & B2 & F2).
        exists (evs1 ++ evs2)%list, (ios1 ++ ios2)%list.
        split; [eapply grows_trans; eauto|].
        split; [now rewrite forallb_app, C1, C2|].
        split; [|exact F2].
        intros n' Hr. apply balanced_app; eauto.
      + rewrite (bind_raise World _ _ _ _ _ E1). intros [= <- <-].
        exists evs1, ios1. split; [exact G1|]. split; [exact C1|].
        split; [discriminate|discriminate]. }
  destruct H as (evs & ios & G & C & B & F).
  exists evs, ios. split; [exact G|]. split; [exact C|]. split; [|exact F].
  intros n' Hr. split; [eauto|].
  destruct (consume_frame World call_tool _ _ _ _ _ _ E)
    as (_ & _ & _ & (ios' & Hio' & _ & Hn) & _).
  destruct G as (_ & _ & Hio & _).
  rewrite Hio in Hio'. apply app_inv_head in Hio'. subst ios'. auto.
Qed.

Lemma grows_chat m (w : World) (model : string) :
  grows m {| self := self m; world := w;
             io := (io m ++ [IoChat model (messages (self m))
                                    (get_tools (self m))])%list;
             yielded := yielded m |}
    [] [IoChat model (messages (self m)) (get_tools (self m))].
Proof.
  unfold grows. simpl. rewrite !app_nil_r.
  split; [apply same_registry_refl|]. repeat split; trivial.
Qed.

Lemma run_log_last (model : string) (catalog : list Tool)
  (h : list Message) (calls : list IO) :
  forallb is_call calls = true ->
  run_log model catalog h (IoChat model h catalog :: calls).
Proof.
  intros C. rewrite <- (app_nil_r calls).
  apply (@log_turn model catalog h calls [] []); trivial; [congruence|].
  constructor.
Qed.

Lemma prompt_grows (fuel : nat) (model : string) (tool_chain : list string) :
  forall m r m',
    _recursive_prompt chat call_tool fuel model tool_chain m = (r, m') ->
    exists evs ios,
      grows m m' evs ios
      /\ run_log model (get_tools (self m)) (messages (self m)) ios
      /\ chats_made ios <= fuel
      /\ (r = Ok tt ->
          balanced evs ios
          /\ exists pre h, ios = (pre ++ [IoChat model h (get_tools (self m))])%list)
      /\ (r = OutOfFuel -> balanced evs ios /\ chats_made ios = fuel).
Proof.
  induction fuel as [|fuel IH]; intros m r m'.
  - intros [= <- <-]. exists [], []. split; [apply grows_refl|].
    split; [constructor|]. split; [apply Nat.le_refl|].
    split; [discriminate|]. intros _. split; [split|]; reflexivity.
  - rewrite prompt_unfold.
    rewrite (bind_ok World _ _ _ _ _ (do_chat_eq World chat model m)). cbv beta.
    set (h := messages (self m)). set (cat := get_tools (self m)).
    set (m0 := {| self := self m; world := _; io := _; yielded := _ |}).
    set (stream := fst (chat _ _ _ _)).
    assert (G0 : grows m m0 [] [IoChat model h cat]) by apply grows_chat.
    destruct (consume call_tool tool_chain stream 0 m0) as [r1 m1] eqn:E.
    destruct (consume_grows _ _ _ _ _ _ E) as (evs1 & ios1 & G1 & C1 & B1 & F1).
    destruct (only_calls ios1 C1) as [_ Hch1].
    pose proof (grows_trans _ _ _ _ _ _ _ G0 G1) as G01. simpl in G01.
    assert (Hchat : chats_made (IoChat model h cat :: ios1) = 1).
    { change (IoChat model h cat :: ios1)
        with ([IoChat model h cat] ++ ios1)%list.
      rewrite chats_made_app, Hch1. reflexivity. }
    assert (Hbal0 : balanced [] [IoChat model h cat]) by (split; reflexivity).
    destruct r1 as [count|e|]; [| |congruence].
    + rewrite (bind_ok World _ _ _ _ _ E).
      destruct (B1 count eq_refl) as [Bal1 Hcount].
      destruct (Nat.ltb 0 count) eqn:Hlt.
      * intros H. destruct (IH _ _ _ H) as (evs2 & ios2 & G2 & L2 & Hle & Hok & Hout).
        pose proof G1 as (R1 & _ & _ & M1 & _).
        rewrite (get_tools_same_registry _ _ R1) in L2, Hok.
        rewrite M1 in L2. simpl in L2.
        exists (evs1 ++ evs2)%list, (IoChat model h cat :: ios1 ++ ios2)%list.
        split.
        { change (IoChat model h cat :: ios1 ++ ios2)%list
            with ((IoChat model h cat :: ios1) ++ ios2)%list.
          eapply grows_trans; eauto. }
        split.
        { apply (@log_turn model cat h ios1 (result_texts evs1) ios2); trivial.
          intros _. apply Nat.ltb_lt in Hlt.
          destruct Hcount as [[-> _]|[_ Hne]]; [lia|exact Hne]. }
        assert (Hch : chats_made (IoChat model h cat :: ios1 ++ ios2)
                      = 1 + chats_made ios2).
        { change (IoChat model h cat :: ios1 ++ ios2)%list
            with ((IoChat model h cat :: ios1) ++ ios2)%list.
          now rewrite chats_made_app, Hchat. }
        assert (Hb : balanced evs2 ios2 ->
                     balanced (evs1 ++ evs2)
                       (IoChat model h cat :: ios1 ++ ios2)).
        { intros Bal2.
          change (IoChat model h cat :: ios1 ++ ios2)%list
            with ([IoChat model h cat] ++ ios1 ++ ios2)%list.
          change (evs1 ++ evs2)%list with ([] ++ evs1 ++ evs2)%list.
          repeat apply balanced_app; trivial. }
        split; [rewrite Hch; lia|]. split.
        { intros Hr. destruct (Hok Hr) as (Bal2 & pre & h' & ->).
          split; [now apply Hb|].
          exists (IoChat model h cat :: ios1 ++ pre)%list, h'.
          simpl. now rewrite <- app_assoc. }
        intros Hr. destruct (Hout Hr) as (Bal2 & Hf).
        split; [now apply Hb | rewrite Hch; lia].
      * intros [= <- <-].
        assert (ios1 = []) as ->.
        { apply Nat.ltb_ge in Hlt.
          destruct Hcount as [[_ ->]|[Hpos _]]; [reflexivity|lia]. }
        exists evs1, [IoChat model h cat]. split; [exact G01|].
        split; [now apply run_log_last|]. split; [rewrite Hchat; lia|].
        split; [|discriminate]. intros _. split.
        { change evs1 with ([] ++ evs1)%list.
          change [IoChat model h cat] with ([IoChat model h cat] ++ [])%list.
          now apply balanced_app. }
        now exists [], h.
    + rewrite (bind_raise World _ _ _ _ _ E). intros [= <- <-].
      exists evs1, (IoChat model h cat :: ios1). split; [exact G01|].
      split; [now apply run_log_last|]. split; [rewrite Hchat; lia|].
      split; discriminate.
Qed.

Lemma process_message_eq (fuel : nat) (message model token : string) m :
  process_message chat call_tool fuel message model token m
  = _recursive_prompt chat call_tool fuel model []
      {| self := asked message token (self m); world := world m;
         io := io m; yielded := yielded m |}.
Proof. reflexivity. Qed.

(** What a run of [process_message] adds, in one statement. *)
Lemma process_message_grows (fuel : nat) (message model token : string) m :
  let run := process_message chat call_tool fuel message model token m in
  let h := (messages (self m) ++ [user_turn message])%list in
  exists evs ios,
    yielded (snd run) = (yielded m ++ evs)%list
    /\ io (snd run) = (io m ++ ios)%list
    /\ messages (self (snd run))
       = (h ++ map tool_turn (result_texts evs))%list
    /\ servers (self (snd run)) = servers (self m)
    /\ selected_server (self (snd run)) = selected_server (self m)
    /\ user_token (self (snd run)) = Some token
    /\ Forall event_ok evs
    /\ count_role "tool" evs <= calls_made ios
    /\ calls_made ios <= count_role "status" evs
    /\ run_log model (get_tools (self m)) h ios
    /\ chats_made ios <= fuel
    /\ (fst run = Ok tt ->
        balanced evs ios
        /\ exists pre h', ios = (pre ++ [IoChat model h' (get_tools (self m))])%list)
    /\ (fst run = OutOfFuel -> balanced evs ios /\ chats_made ios = fuel).
Proof.
  intros run h. subst run. rewrite process_message_eq.
  destruct (_recursive_prompt chat call_tool fuel model [] _) as [r m'] eqn:E.
  destruct (prompt_grows _ _ _ _ _ _ E)
    as (evs & ios & ((Hs & Hsel & Htok) & Hy & Hio & Hm & He & Ha & Hb)
        & L & Hle & Hok & Hout).
  exists evs, ios. simpl in *.
  split; [exact Hy|]. split; [exact Hio|]. split; [exact Hm|].
  split; [exact Hs|]. split; [exact Hsel|]. split; [exact Htok|].
  split; [exact He|]. split; [exact Ha|]. split; [exact Hb|].
  split; [exact L|]. split; [exact Hle|]. split; [exact Hok | exact Hout].
Qed.

(** ** A run of [process_message]: history, events and requests *)

(** X1: whatever the model and the providers do, and however the run ends,
    [process_message] only appends to the history: first the user message,
    then tool turns; it appends no assistant or system entry, removes and
    reorders nothing, leaves the registry and the selection as they were,
    and stores the token it was given. *)
Theorem X1_history_only_grows (fuel : nat) (message model token : string) m :
  let after := self (snd (process_message chat call_tool fuel message model
                            token m)) in
  (exists added,
      messages after = (messages (self m) ++ user_turn message :: added)%list
      /\ Forall (fun msg => role msg = "tool") added)
  /\ servers after = servers (self m)
  /\ selected_server after = selected_server (self m)
  /\ user_token after = Some token.
Proof.
  intros after. subst after.
  destruct (process_message_grows fuel message model token m)
    as (evs & ios & _ & _ & Hm & Hs & Hsel & Htok & _).
  cbv zeta in *. split; [|now repeat split].
  exists (map tool_turn (result_texts evs)).
  rewrite Hm, <- app_assoc. split; [reflexivity|].
  apply Forall_map_intro. reflexivity.
Qed.

(** X2: the tool results that the consumer is shown and the tool turns
    that the history receives are the same texts in the same order: after
    the user message, the history has grown by exactly the contents of the
    result events of the run. *)
Theorem X2_results_shown_are_recorded (fuel : nat)
  (message model token : string) m :
  let run := process_message chat call_tool fuel message model token m in
  exists evs,
    yielded (snd run) = (yielded m ++ evs)%list
    /\ messages (self (snd run))
       = (messages (self m) ++ user_turn message
            :: map tool_turn (result_texts evs))%list.
Proof.
  intros run.
  destruct (process_message_grows fuel message model token m)
    as (evs & ios & Hy & _ & Hm & _).
  exists evs. split; [exact Hy|]. fold run in Hm.
  now rewrite Hm, <- app_assoc.
Qed.

(** X3: no provider is called without a calling status yielded for the
    call, and no result event is yielded without a provider call: in every
    run there are at most as many result events as provider calls and at
    most as many provider calls as calling statuses, and the three numbers
    are equal unless the run ends in an exception. *)
Theorem X3_calls_are_announced_and_answered (fuel : nat)
  (message model token : string) m :
  let run := process_message chat call_tool fuel message model token m in
  exists evs ios,
    yielded (snd run) = (yielded m ++ evs)%list
    /\ io (snd run) = (io m ++ ios)%list
    /\ count_role "tool" evs <= calls_made ios
    /\ calls_made ios <= count_role "status" evs
    /\ ((forall e, fst run <> Raise e) ->
        count_role "tool" evs = calls_made ios
        /\ calls_made ios = count_role "status" evs).
Proof.
  intros run.
  destruct (process_message_grows fuel message model token m)
    as (evs & ios & Hy & Hio & _ & _ & _ & _ & _ & Ha & Hb & _ & _ & Hok & Hout).
  exists evs, ios. fold run in Hok, Hout.
  split; [exact Hy|]. split; [exact Hio|]. split; [exact Ha|].
  split; [exact Hb|]. intros Hr.
  destruct (fst run) as [[]|e|]; [apply Hok | exfalso; eapply Hr | apply Hout];
    reflexivity.
Qed.

(** X4: every event of a run is one of three shapes: an assistant event
    with non-empty text and no tool name or status; a status event whose
    status is "calling", with the tool's name and the content
    "Calling tool: <name>"; a tool event with no tool name or status.  The
    statuses "processing", "completed" and "error" are never used. *)
Theorem X4_events_have_three_shapes (fuel : nat)
  (message model token : string) m :
  let run := process_message chat call_tool fuel message model token m in
  exists evs,
    yielded (snd run) = (yielded m ++ evs)%list
    /\ Forall event_ok evs
    /\ Forall (fun ev => cr_tool_status ev = None
                         \/ cr_tool_status ev = Some "calling") evs.
Proof.
  intros run.
  destruct (process_message_grows fuel message model token m)
    as (evs & ios & Hy & _ & _ & _ & _ & _ & He & _).
  exists evs. split; [exact Hy|]. split; [exact He|].
  eapply Forall_impl; [|exact He].
  intros ev [(_ & _ & _ & H)|[(_ & H & _)|(_ & _ & H)]]; auto.
Qed.

Lemma run_log_chats (model : string) (catalog : list Tool)
  (h : list Message) (ios : list IO) :
  run_log model catalog h ios ->
  Forall (fun e =>
            match e with
            | IoChat model' h' catalog' =>
                model' = model /\ catalog' = catalog
                /\ exists texts, h' = (h ++ map tool_turn texts)%list
            | _ => True
            end) ios.
Proof.
  induction 1 as [h|h calls texts rest C _ _ IH]; [constructor|].
  constructor.
  - repeat split. exists []. now rewrite app_nil_r.
  - apply Forall_app. split.
    + apply Forall_forall. intros e He.
      rewrite forallb_forall in C. specialize (C e He). now destruct e.
    + eapply Forall_impl; [|exact IH].
      intros [t|model' h' catalog'|s t a o]; trivial.
      intros (-> & -> & texts' & ->). repeat split.
      exists (texts ++ texts')%list. now rewrite map_app, app_assoc.
Qed.

(** X5: every model request of a run names the model that was asked for,
    carries the catalog of the selection as it was when the run began, and
    carries the history at the start of the run, the user message, and tool
    turns, nothing else. *)
Theorem X5_model_requests_are_uniform (fuel : nat)
  (message model token : string) m :
  let run := process_message chat call_tool fuel message model token m in
  exists ios,
    io (snd run) = (io m ++ ios)%list
    /\ chats_made ios <= fuel
    /\ Forall (fun e =>
                 match e with
                 | IoChat model' h' catalog' =>
                     model' = model /\ catalog' = get_tools (self m)
                     /\ exists texts,
                         h' = (messages (self m) ++ user_turn message
                                 :: map tool_turn texts)%list
                 | IoCallTool _ _ _ _ => True
                 | IoConnect _ => False
                 end) ios.
Proof.
  intros run.
  destruct (process_message_grows fuel message model token m)
    as (evs & ios & _ & Hio & _ & _ & _ & _ & _ & _ & _ & L & Hle & _).
  exists ios. split; [exact Hio|]. split; [exact Hle|].
  assert (Hnc : Forall (fun e => match e with IoConnect _ => False | _ => True end)
                  ios).
  { clear Hio Hle. induction L as [h|h calls texts rest C _ _ IH]; constructor;
      trivial.
    apply Forall_app. split; [|exact IH].
    apply Forall_forall. intros e He.
    rewrite forallb_forall in C. specialize (C e He). now destruct e. }
  pose proof (run_log_chats _ _ _ _ L) as Hc.
  rewrite Forall_forall in *. intros e He.
  specialize (Hnc e He). specialize (Hc e He).
  destruct e as [t|model' h' catalog'|s t a o]; trivial.
  destruct Hc as (-> & -> & texts & ->). repeat split.
  exists texts. now rewrite <- app_assoc.
Qed.

Lemma call_is_no_chat (e : IO) : is_call e = true -> is_chat e = false.
Proof. now destruct e. Qed.

Lemma adjacent_after_calls (calls : list IO) :
  forall (rest pre : list IO) (e1 e2 : IO) (post : list IO),
    forallb is_call calls = true ->
    (calls ++ rest = pre ++ e1 :: e2 :: post)%list ->
    is_chat e1 = true ->
    exists pre', rest = (pre' ++ e1 :: e2 :: post)%list.
Proof.
  induction calls as [|c calls IH]; intros rest pre e1 e2 post C E H1.
  - now exists pre.
  - simpl in C. apply andb_prop in C as [Cc C].
    destruct pre as [|x pre]; simpl in E; injection E as -> E.
    + apply call_is_no_chat in Cc. congruence.
    + eapply IH; eauto.
Qed.

Lemma run_log_alternates (model : string) (catalog : list Tool)
  (h : list Message) (ios : list IO) :
  run_log model catalog h ios ->
  forall pre e1 e2 post,
    ios = (pre ++ e1 :: e2 :: post)%list ->
    is_chat e1 = true -> is_chat e2 = false.
Proof.
  induction 1 as [h|h calls texts rest C Hne _ IH]; intros pre e1 e2 post E H1.
  - now destruct pre.
  - destruct pre as [|x pre]; simpl in E; injection E as <- E.
    + destruct calls as [|c calls]; simpl in E.
      * exfalso. apply Hne; [rewrite E; discriminate | reflexivity].
      * injection E as <- _. simpl in C. apply andb_prop in C as [Cc _].
        now apply call_is_no_chat.
    + destruct (adjacent_after_calls _ _ _ _ _ _ C E H1) as (pre' & E').
      eapply IH; eauto.
Qed.

(** X6: the loop never asks the model twice in a row: between two model
    requests of a run there is always at least one provider call; and a run
    that returns has the model's answer to its last request as its last
    exchange with the outside, no provider call after it. *)
Theorem X6_requests_alternate (fuel : nat) (message model token : string) m :
  let run := process_message chat call_tool fuel message model token m in
  exists ios,
    io (snd run) = (io m ++ ios)%list
    /\ (forall pre e1 e2 post,
           ios = (pre ++ e1 :: e2 :: post)%list ->
           is_chat e1 = true -> is_chat e2 = false)
    /\ (fst run = Ok tt ->
        exists pre h,
          ios = (pre ++ [IoChat model h (get_tools (self m))])%list).
Proof.
  intros run.
  destruct (process_message_grows fuel message model token m)
    as (evs & ios & _ & Hio & _ & _ & _ & _ & _ & _ & _ & L & _ & Hok & _).
  exists ios. split; [exact Hio|]. split.
  - exact (run_log_alternates _ _ _ _ L).
  - intros Hr. exact (proj2 (Hok Hr)).
Qed.

(** ** A batch: provider failures and calls that are not routed *)


(** X9: a call that is not routed ends the batch with the lookup's
    exception, [KeyError] on the provider part of the name or [IndexError]
    when the name has no second part.  The calling statuses of the whole
    batch were already yielded; the calls that precede it in the batch were
    made at their providers, and those that follow were not; no result event
    is yielded and the history is unchanged, so what the earlier calls
    returned is lost. *)
Theorem X9_unrouted_call_discards_batch (tool_chain : list string) part
  (n : nat) m (pre post : list ToolCall) tool :
  dispatches part = true ->
  tool_calls part = (pre ++ tool :: post)%list ->
  Forall (fun t => routed (self m) t = true) pre ->
  routed (self m) tool = false ->
  let run := on_part call_tool tool_chain part n m in
  let provider := hd EmptyString (PyStr.split "/" (call_name tool)) in
  (fst run = Raise (KeyError provider)
   \/ fst run = Raise (IndexError "list index out of range"))
  /\ messages (self (snd run)) = messages (self m)
  /\ yielded (snd run)
     = (yielded m ++ map (calling_event tool_chain) (tool_calls part))%list
  /\ exists ios,
      io (snd run) = (io m ++ ios)%list
      /\ forallb is_call ios = true
      /\ List.length ios = List.length pre.
Proof.
  intros D Etc Hpre Hbad run provider. subst run.
  destruct (on_part_unrouted tool_chain part n m pre post tool
              D Etc Hpre Hbad)
    as (m' & ios & -> & Hs & Hy & Hio & Hc & Hlen).
  simpl. split.
  - unfold routing_error. fold provider.
    destruct (dict_get (selected (self m)) provider); [now right|now left].
  - rewrite Hs. split; [reflexivity|]. split; [exact Hy|]. now exists ios.
Qed.

(** ** Qualified names and routing *)

Lemma split_no_slash (s : string) :
  no_slash s = true -> PyStr.split "/" s = [s].
Proof.
  induction s as [|ch s IH]; intros H; [reflexivity|].
  apply no_slash_cons in H as [Hch Hs]. simpl.
  destruct (Ascii.eqb_spec ch "/"); [contradiction|].
  now rewrite (IH Hs).
Qed.

Lemma split_qualified (p t : string) :
  no_slash p = true ->
  PyStr.split "/" (p ++ "/" ++ t) = p :: PyStr.split "/" t.
Proof.
  induction p as [|ch p IH]; intros H; [reflexivity|].
  apply no_slash_cons in H as [Hch Hp]. specialize (IH Hp). simpl in *.
  destruct (Ascii.eqb_spec ch "/"); [contradiction|].
  now rewrite IH.
Qed.

Lemma split_head (s : string) :
  exists rest, PyStr.split "/" s = hd EmptyString (PyStr.split "/" s) :: rest.
Proof.
  induction s as [|ch s [rest IH]]; simpl; [now exists []|].
  destruct (Ascii.eqb ch "/"); [eexists; reflexivity|].
  rewrite IH. eexists. reflexivity.
Qed.

Lemma route_qualified c (p t : string) :
  no_slash p = true ->
  route c (p ++ "/" ++ t)
  = match dict_get (selected c) p with
    | Some s => Some (session s, hd EmptyString (PyStr.split "/" t))
    | None => None
    end.
Proof.
  intros H. unfold route. rewrite (split_qualified p t H). simpl.
  destruct (dict_get (selected c) p); [|reflexivity].
  destruct (split_head t) as [rest ->]. reflexivity.
Qed.

(** X10: the names that [_connect_client] gives and the lookup of
    [_tool_call] fit together for names without '/': the qualified name of a
    tool listed by a selected provider is routed to that provider's session,
    under the tool's own name.  A listed name that contains '/' is cut at
    its first '/': the provider is asked for the part before it. *)
Theorem X10_qualified_names_route_back c (p : string) (s : Session)
  (native : McpTool) :
  no_slash p = true ->
  dict_get (selected c) p = Some s ->
  let qualified := fn_name (function (qualify p native)) in
  qualified = p ++ "/" ++ mcp_name native
  /\ (no_slash (mcp_name native) = true ->
      route c qualified = Some (session s, mcp_name native))
  /\ (forall a b, mcp_name native = a ++ "/" ++ b -> no_slash a = true ->
                  route c qualified = Some (session s, a)).
Proof.
  intros Hp Hs qualified. subst qualified.
  change (fn_name (function (qualify p native)))
    with (p ++ "/" ++ mcp_name native).
  split; [reflexivity|]. rewrite (route_qualified c p _ Hp), Hs. split.
  - intros Hn. now rewrite (split_no_slash _ Hn).
  - intros a b -> Ha. now rewrite (split_qualified a b Ha).
Qed.

Lemma dict_get_filter (names : list string) (d : dict Session) (k : string) :
  dict_get (filter (fun entry => name_in (fst entry) names) d) k
  = if name_in k names then dict_get d k else None.
Proof.
  induction d as [|[k' s'] d IH]; simpl; [now destruct (name_in k names)|].
  destruct (name_in k' names) eqn:Hn; simpl.
  - destruct (String.eqb_spec k' k) as [->|Hne]; [now rewrite Hn|exact IH].
  - destruct (String.eqb_spec k' k) as [->|Hne]; [|exact IH].
    rewrite Hn in *. exact IH.
Qed.

(** X11: after [select_server] a qualified name is routed exactly when its
    provider part is in the list of names and is a registered provider:
    then to the session the registry holds for it, and otherwise nowhere.
    A call to a tool of a provider that was left out of the list, or that
    the list names and the registry does not hold, raises [KeyError] on
    the provider's name before any provider is contacted. *)
Theorem X11_selection_decides_routing (names : list string) c (p t : string)
  tool m :
  no_slash p = true ->
  call_name tool = p ++ "/" ++ t ->
  self m = select_server names c ->
  route (self m) (call_name tool)
  = (if name_in p names
     then match dict_get (servers c) p with
          | Some s => Some (session s, hd EmptyString (PyStr.split "/" t))
          | None => None
          end
     else None)
  /\ (route (self m) (call_name tool) <> None
      <-> name_in p names = true /\ dict_get (servers c) p <> None)
  /\ (name_in p names = false \/ dict_get (servers c) p = None ->
      tool_call_body call_tool tool m = (Raise (KeyError p), m)).
Proof.
  intros Hp Hname Hself.
  assert (R : route (self m) (call_name tool)
              = if name_in p names
                then match dict_get (servers c) p with
                     | Some s =>
                         Some (session s, hd EmptyString (PyStr.split "/" t))
                     | None => None
                     end
                else None).
  { rewrite Hname, Hself, (route_qualified _ p t Hp).
    unfold selected. simpl. rewrite dict_get_filter.
    now destruct (name_in p names). }
  split; [exact R|]. split.
  - rewrite R. destruct (name_in p names).
    + destruct (dict_get (servers c) p).
      * split; [intros _; split; [reflexivity|discriminate]|discriminate].
      * split; [intros H; now elim H|intros [_ H]; now elim H].
    + split; [intros H; now elim H|intros [H _]; discriminate].
  - intros Hout.
    assert (Hsel : dict_get (selected (self m)) p = None).
    { rewrite Hself. unfold selected. simpl. rewrite dict_get_filter.
      destruct Hout as [Hout|Hout]; [now rewrite Hout|].
      rewrite Hout. now destruct (name_in p names). }
    assert (R' : route (self m) (call_name tool) = None).
    { rewrite R. destruct Hout as [Hout|Hout]; [now rewrite Hout|].
      rewrite Hout. now destruct (name_in p names). }
    rewrite (body_unrouted_exact tool m R'). unfold routing_error.
    rewrite Hname, (split_qualified p t Hp). simpl.
    now rewrite Hsel.
Qed.

Lemma filter_all {A} (f : A -> bool) (l : list A) :
  (forall x, In x l -> f x = true) -> filter f l = l.
Proof.
  induction l as [|x l IH]; intros H; simpl; [reflexivity|].
  rewrite (H x (or_introl eq_refl)), IH; [reflexivity|].
  intros y Hy. apply H. now right.
Qed.

Lemma name_in_iff (k : string) (names : list string) :
  name_in k names = true <-> In k names.
Proof.
  unfold name_in. rewrite existsb_exists. split.
  - intros (x & Hx & E). apply String.eqb_eq in E. now subst.
  - intros H. exists k. split; [exact H | apply String.eqb_refl].
Qed.

(** X12: selections do not accumulate.  [select_server] always selects
    from the whole registry: a second selection forgets the first and can
    bring back providers that the first left out; selecting every registered
    name gives the whole catalog back, selecting no name gives the empty
    catalog, and every selection's catalog is part of the whole one.  The
    history and the token are not touched. *)
Theorem X12_selections_do_not_accumulate (a b : list string) c :
  select_server a (select_server b c) = select_server a c
  /\ get_tools (select_server (dict_keys (servers c)) c)
     = flat_map tools (dict_values (servers c))
  /\ get_tools (select_server [] c) = []
  /\ incl (get_tools (select_server a c))
       (flat_map tools (dict_values (servers c)))
  /\ messages (select_server a c) = messages c
  /\ user_token (select_server a c) = user_token c.
Proof.
  split; [reflexivity|]. split; [|split; [|split; [|split; reflexivity]]].
  - unfold get_tools, selected. simpl. rewrite filter_all; [reflexivity|].
    intros [k s] Hin. simpl. apply name_in_iff.
    unfold dict_keys. apply in_map_iff. now exists (k, s).
  - unfold get_tools, selected. simpl.
    now induction (servers c) as [|entry d IH].
  - intros descriptor. unfold get_tools, selected, dict_values. simpl.
    rewrite !in_flat_map. intros (s & Hs & Ht). exists s. split; [|exact Ht].
    apply in_map_iff in Hs as (e & <- & He). apply filter_In in He as [He _].
    now apply in_map.
Qed.

(** ** Bringing the registry up *)

Ltac split_ands := repeat match goal with |- _ /\ _ => split end.

Lemma connect_entry_eq (mk : Params -> Transport) (entry : string * Params) m :
  connect_entry connect mk entry m
  = let out := connect (world m) (mk (snd entry)) in
    let log := (io m ++ [IoConnect (mk (snd entry))])%list in
    match fst out with
    | Connected s listed =>
        (Ok tt,
         {| self := {| servers :=
                         dict_set (servers (self m)) (fst entry)
                           {| session := s;
                              tools := map (qualify (fst entry)) listed |};
                       selected_server := selected_server (self m);
                       messages := messages (self m);
                       user_token := user_token (self m) |};
            world := snd out; io := log; yielded := yielded m |})
    | ConnectFailed d =>
        (Raise (ConnectionFailed d),
         {| self := self m; world := snd out; io := log;
            yielded := yielded m |})
    end.
Proof.
  unfold connect_entry, _connect_client, bind, do_connect, ret, set_server,
    bind, get_self, set_self.
  now destruct (connect (world m) (mk (snd entry))) as [[s listed|d] w].
Qed.

Lemma dict_set_keys_iff {V} (d : dict V) (k x : string) (v : V) :
  In x (dict_keys (dict_set d k v)) <-> x = k \/ In x (dict_keys d).
Proof.
  split; [apply dict_set_keys_incl|].
  induction d as [|[k' v'] d IH]; simpl.
  - intros [->|[]]. now left.
  - destruct (String.eqb_spec k' k) as [->|Hne]; simpl.
    + intros [->|[->|H]]; auto.
    + intros [->|[->|H]]; auto.
Qed.

Lemma registry_ok_set (d : dict Session) (k : string) (s : Session) :
  registry_ok d -> prefixed (k, s) -> registry_ok (dict_set d k s).
Proof.
  intros (Hk & Hp) Hs. induction d as [|[k' s'] d IH]; simpl.
  - split; repeat constructor; auto.
  - inversion Hk as [|? ? Hnin Hnd]; subst.
    inversion Hp as [|? ? Hpk Hp']; subst.
    destruct (String.eqb_spec k' k) as [->|Hne].
    + split; simpl; constructor; auto.
    + destruct (IH Hnd Hp') as (Hk2 & Hp2).
      split; simpl; constructor; auto.
      intros Hin. apply dict_set_keys_incl in Hin as [->|Hin]; auto.
Qed.

Lemma prefixed_qualify (k : string) (s : ClientSession) (listed : list McpTool) :
  prefixed (k, {| session := s; tools := map (qualify k) listed |}).
Proof.
  unfold prefixed. simpl. apply Forall_map_intro.
  intros native. now exists (mcp_name native).
Qed.

(** One of the three loops: the providers are contacted in the order of
    the entries, up to the first that fails. *)
Lemma for_connect_log (mk : Params -> Transport) (entries : dict Params) :
  forall m r m',
    for_ entries (connect_entry connect mk) m = (r, m') ->
    exists contacted rest,
      map (fun entry => mk (snd entry)) entries = (contacted ++ rest)%list
      /\ io m' = (io m ++ map IoConnect contacted)%list
      /\ yielded m' = yielded m
      /\ messages (self m') = messages (self m)
      /\ user_token (self m') = user_token (self m)
      /\ selected_server (self m') = selected_server (self m)
      /\ (registry_ok (servers (self m)) -> registry_ok (servers (self m')))
      /\ (r = Ok tt ->
          rest = []
          /\ forall k, In k (dict_keys (servers (self m')))
                       <-> In k (dict_keys (servers (self m)))
                           \/ In k (dict_keys entries))
      /\ (forall e, r = Raise e ->
                    contacted <> [] /\ exists d, e = ConnectionFailed d)
      /\ r <> OutOfFuel.
Proof.
  induction entries as [|entry rest IH]; intros m r m'; cbn [for_].
  - intros [= <- <-]. exists [], []. simpl. rewrite app_nil_r.
    split_ands; trivial; try discriminate.
    intros _. split; [reflexivity|]. intros k. unfold dict_keys. simpl.
    split; [now left | now intros [H|[]]].
  - unfold bind at 1. rewrite connect_entry_eq. cbv zeta.
    destruct (connect (world m) (mk (snd entry))) as [[s listed|d] w]; simpl.
    + intros E.
      destruct (IH _ _ _ E)
        as (contacted & rest' & Hts & Hio & Hy & Hm & Ht & Hsel & Hreg
            & Hok & Hraise & Hf).
      simpl in *. exists (mk (snd entry) :: contacted), rest'.
      split; [simpl; now rewrite Hts|].
      split; [rewrite Hio, <- app_assoc; reflexivity|].
      split; [exact Hy|]. split; [exact Hm|]. split; [exact Ht|].
      split; [exact Hsel|]. split.
      { intros H. apply Hreg. apply registry_ok_set; trivial.
        apply prefixed_qualify. }
      split.
      { intros Hr. destruct (Hok Hr) as [-> Hkeys]. split; [reflexivity|].
        intros k. rewrite Hkeys, dict_set_keys_iff. unfold dict_keys. simpl.
        split; [intros [[->|H]|H] | intros [H|[<-|H]]]; auto. }
      split; [|exact Hf].
      intros e Hr. destruct (Hraise e Hr) as [_ Hd]. split; [discriminate|exact Hd].
    + intros [= <- <-]. simpl.
      exists [mk (snd entry)], (map (fun entry => mk (snd entry)) rest).
      split_ands; trivial; try discriminate.
      intros e [= <-]. split; [discriminate|now exists d].
Qed.

Lemma create_log (config : ConfigContainer) (w : World) r m' :
  create connect config w = (r, m') ->
  exists contacted rest,
    transports config = (contacted ++ rest)%list
    /\ io m' = map IoConnect contacted
    /\ yielded m' = []
    /\ messages (self m') = [] /\ user_token (self m') = None
    /\ registry_ok (servers (self m'))
    /\ (r = Ok tt ->
        rest = []
        /\ selected_server (self m') = SameAsServers
        /\ forall k, In k (dict_keys (servers (self m')))
                     <-> In k (config_names config))
    /\ (forall e, r = Raise e ->
                  contacted <> []
                  /\ selected_server (self m') = OwnDict []
                  /\ exists d, e = ConnectionFailed d)
    /\ r <> OutOfFuel.
Proof.
  unfold create, _connect_to_multiple_servers, transports, config_names.
  assert (R0 : registry_ok (servers (self (@fresh World w))))
    by (split; constructor).
  unfold bind at 1.
  destruct (for_ (stdio config) (connect_entry connect stdio_client) (fresh w))
    as [r1 m1] eqn:E1.
  destruct (for_connect_log _ _ _ _ _ E1)
    as (c1 & t1 & Hts1 & Hio1 & Hy1 & Hm1 & Ht1 & Hsel1 & Hreg1 & Hok1 & Hr1 & Hf1).
  simpl in Hio1, Hy1, Hm1, Ht1, Hsel1. specialize (Hreg1 R0).
  destruct r1 as [[]|e|]; [| |congruence].
  2:{ intros [= <- <-]. destruct (Hr1 e eq_refl) as [Hne Hd].
      exists c1, (t1 ++ map (fun entry => sse_client (snd entry)) (sse config)
                    ++ map (fun entry => streamablehttp_client (snd entry))
                         (streamable config))%list.
      rewrite Hts1, <- app_assoc.
      split_ands; trivial; try discriminate.
      intros e' [= <-]. split_ands; trivial. }
  destruct (Hok1 eq_refl) as [-> Hk1]. rewrite app_nil_r in Hts1.
  unfold bind at 1.
  destruct (for_ (sse config) (connect_entry connect sse_client) m1)
    as [r2 m2] eqn:E2.
  destruct (for_connect_log _ _ _ _ _ E2)
    as (c2 & t2 & Hts2 & Hio2 & Hy2 & Hm2 & Ht2 & Hsel2 & Hreg2 & Hok2 & Hr2 & Hf2).
  specialize (Hreg2 Hreg1).
  destruct r2 as [[]|e|]; [| |congruence].
  2:{ intros [= <- <-]. destruct (Hr2 e eq_refl) as [Hne Hd].
      exists (c1 ++ c2)%list,
        (t2 ++ map (fun entry => streamablehttp_client (snd entry))
                 (streamable config))%list.
      rewrite Hts1, Hts2, Hio2, Hio1, Hy2, Hm2, Ht2, Hsel2, map_app,
        <- !app_assoc.
      split_ands; trivial; try discriminate.
      intros e' [= <-]. split_ands; trivial.
      destruct c1; [exact Hne|discriminate]. }
  destruct (Hok2 eq_refl) as [-> Hk2]. rewrite app_nil_r in Hts2.
  unfold bind at 1.
  destruct (for_ (streamable config)
              (connect_entry connect streamablehttp_client) m2)
    as [r3 m3] eqn:E3.
  destruct (for_connect_log _ _ _ _ _ E3)
    as (c3 & t3 & Hts3 & Hio3 & Hy3 & Hm3 & Ht3 & Hsel3 & Hreg3 & Hok3 & Hr3 & Hf3).
  specialize (Hreg3 Hreg2).
  destruct r3 as [[]|e|]; [| |congruence].
  2:{ intros [= <- <-]. destruct (Hr3 e eq_refl) as [Hne Hd].
      exists (c1 ++ c2 ++ c3)%list, t3.
      rewrite Hts1, Hts2, Hts3, Hio3, Hio2, Hio1, Hy3, Hy2, Hm3, Hm2, Ht3, Ht2,
        Hsel3, Hsel2, !map_app, <- !app_assoc.
      split_ands; trivial; try discriminate.
      intros e' [= <-]. split_ands; trivial.
      destruct c1; [destruct c2; [exact Hne|discriminate]|discriminate]. }
  destruct (Hok3 eq_refl) as [-> Hk3]. rewrite app_nil_r in Hts3.
  unfold select_all, bind, get_self, set_self. intros [= <- <-]. simpl.
  exists (c1 ++ c2 ++ c3)%list, [].
  rewrite Hts1, Hts2, Hts3, Hio3, Hio2, Hio1, Hy3, Hy2, Hm3, Hm2, Ht3, Ht2,
    !map_app, app_nil_r, <- !app_assoc.
  split; [reflexivity|]. split; [reflexivity|]. split; [exact Hy1|].
  split; [exact Hm1|]. split; [exact Ht1|]. split; [exact Hreg3|].
  split; [|split; [discriminate|discriminate]].
  intros _. split; [reflexivity|]. split; [reflexivity|].
  intros k. rewrite Hk3, Hk2, Hk1, !in_app_iff. unfold dict_keys. simpl.
  split; [intros [[[[]|H]|H]|H] | intros [H|[H|H]]]; auto.
Qed.

Lemma dict_get_of_In {V} (d : dict V) (k : string) (v : V) :
  NoDup (dict_keys d) -> In (k, v) d -> dict_get d k = Some v.
Proof.
  induction d as [|[k' v'] d IH]; simpl; [contradiction|].
  intros Hnd [E|Hin]; inversion Hnd as [|? ? Hnin Hnd']; subst.
  - injection E as -> ->. now rewrite String.eqb_refl.
  - destruct (String.eqb_spec k' k) as [->|Hne]; [|auto].
    exfalso. apply Hnin. unfold dict_keys. apply in_map_iff.
    now exists (k, v).
Qed.

(** X13: every tool that the catalog of a client that [create] returned
    advertises can be dispatched, and goes to the session of the provider
    that listed it: for a provider without '/' in its name that is in the
    selection, each of its descriptors is named "<provider>/<native name>"
    and that name is routed to the provider's session. *)
Theorem X13_catalog_names_are_routed (config : ConfigContainer) (w : World)
  (names : list string) (k : string) (s : Session) (descriptor : Tool) :
  fst (create connect config w) = Ok tt ->
  let created := self (snd (create connect config w)) in
  In (k, s) (servers created) ->
  name_in k names = true ->
  no_slash k = true ->
  In descriptor (tools s) ->
  In descriptor (get_tools (select_server names created))
  /\ exists native,
      fn_name (function descriptor) = k ++ "/" ++ native
      /\ route (select_server names created) (fn_name (function descriptor))
         = Some (session s, hd EmptyString (PyStr.split "/" native)).
Proof.
  intros Hok created Hin Hn Hk Hd. subst created.
  destruct (create connect config w) as [r m'] eqn:E. simpl in *.
  destruct (create_log _ _ _ _ E) as (_ & _ & _ & _ & _ & _ & _ & (Hnd & Hp) & _).
  split.
  - unfold get_tools, selected, dict_values. simpl. apply in_flat_map.
    exists s. split; [|exact Hd]. apply in_map_iff. exists (k, s).
    split; [reflexivity|]. apply filter_In. now split.
  - rewrite Forall_forall in Hp. specialize (Hp _ Hin).
    unfold prefixed in Hp. rewrite Forall_forall in Hp.
    destruct (Hp _ Hd) as (native & Hname). simpl in Hname.
    exists native. split; [exact Hname|].
    rewrite Hname, (route_qualified _ k native Hk).
    unfold selected. simpl. rewrite dict_get_filter, Hn.
    now rewrite (dict_get_of_In _ _ _ Hnd Hin).
Qed.

(** X14: when [create] returns, every configured provider was contacted
    exactly once, the stdio ones first, then the sse ones, then the
    streamable ones, each group in the order of the configuration; the
    registry holds exactly the configured names, each once, also when a name
    is configured for two transports; every descriptor is named after the
    registry key of its provider; the history is empty and no token is
    set. *)
Theorem X14_create_contacts_all_in_order (config : ConfigContainer)
  (w : World) :
  fst (create connect config w) = Ok tt ->
  let m' := snd (create connect config w) in
  io m' = map IoConnect (transports config)
  /\ NoDup (dict_keys (servers (self m')))
  /\ (forall k, In k (dict_keys (servers (self m')))
                <-> In k (config_names config))
  /\ Forall prefixed (servers (self m'))
  /\ messages (self m') = [] /\ user_token (self m') = None
  /\ yielded m' = [].
Proof.
  intros Hok m'. subst m'.
  destruct (create connect config w) as [r m'] eqn:E. simpl in *.
  destruct (create_log _ _ _ _ E)
    as (contacted & rest & Hts & Hio & Hy & Hm & Ht & (Hnd & Hp) & Hokc & _).
  destruct (Hokc Hok) as (-> & _ & Hkeys). rewrite app_nil_r in Hts.
  rewrite Hts. now split_ands.
Qed.


(** ** The token in the text of a result *)





(** ** Tool calls on a fragment with text *)

Lemma consume_undispatched (tool_chain : list string) (stream : list Part) :
  Forall (fun part => dispatches part = false) stream ->
  forall (n : nat) m,
    consume call_tool tool_chain stream n m
    = (Ok n, {| self := self m; world := world m; io := io m;
                yielded := (yielded m
                            ++ map (assistant_event tool_chain)
                                 (filter nonempty (map part_content stream)))%list |}).
Proof.
  induction 1 as [|part rest Hp _ IH]; intros n m; cbn [consume].
  - destruct m; simpl. unfold ret. now rewrite app_nil_r.
  - simpl. destruct (dispatches_cases part) as [[T _]|[(T & C & _)|D]];
      [| |congruence]; rewrite T.
    + rewrite (bind_ok World _ _ _ _ _
                 (on_part_text World call_tool tool_chain part n m T)).
      rewrite IH. simpl. now rewrite <- app_assoc.
    + rewrite (bind_ok World _ _ _ _ _
                 (on_part_idle World call_tool tool_chain part n m T C)).
      apply IH.
Qed.

(** X17: tool calls that arrive on a fragment that also has text are
    dropped without a trace.  If every fragment of the model's answer that
    asks for tools also carries text, the run yields the text fragments as
    assistant events and returns after this single model request: no calling
    status, no provider call, no tool turn. *)
Theorem X17_tool_calls_with_text_are_dropped (fuel : nat)
  (message model token : string) m :
  let c1 := asked message token (self m) in
  let out := chat (world m) model (messages c1) (get_tools c1) in
  Forall (fun part => tool_calls part <> [] ->
                      nonempty (part_content part) = true) (fst out) ->
  process_message chat call_tool (S fuel) message model token m
  = (Ok tt,
     {| self := c1; world := snd out;
        io := (io m ++ [IoChat model (messages c1) (get_tools c1)])%list;
        yielded := (yielded m
                    ++ map (assistant_event [])
                         (filter nonempty (map part_content (fst out))))%list |}).
Proof.
  intros c1 out H.
  assert (Hd : Forall (fun part => dispatches part = false) (fst out)).
  { eapply Forall_impl; [|exact H]. intros part Hp. unfold dispatches.
    destruct (tool_calls part) eqn:Etc; [apply andb_false_r|].
    rewrite Hp; [reflexivity | rewrite Etc; discriminate]. }
  rewrite process_message_eq, prompt_unfold.
  rewrite (bind_ok World _ _ _ _ _ (do_chat_eq World chat model _)).
  cbv beta. simpl. fold c1 out.
  now rewrite (bind_ok World _ _ _ _ _ (consume_undispatched [] _ Hd 0 _)).
Qed.

(** ** A new conversation *)

(** X18: [prepare_prompt] starts a conversation over: whatever the history
    and the token were, the first model request of the next
    [process_message] carries the system prompt and the new user message and
    nothing of the earlier conversation, with the catalog of the selection,
    which [prepare_prompt] leaves as it was, like the registry. *)
Theorem X18_prepare_prompt_starts_over (fuel : nat)
  (message model token : string) m :
  let m1 := {| self := prepare_prompt (self m); world := world m;
               io := io m; yielded := yielded m |} in
  servers (self m1) = servers (self m)
  /\ selected_server (self m1) = selected_server (self m)
  /\ user_token (self m1) = Some EmptyString
  /\ exists rest,
      io (snd (process_message chat call_tool (S fuel) message model token m1))
      = (io m ++ IoChat model
                   [{| role := "system"; content := SYSTEM_PROMPT |};
                    user_turn message]
                   (get_tools (self m)) :: rest)%list.
Proof.
  intros m1. split; [reflexivity|]. split; [reflexivity|].
  split; [reflexivity|]. rewrite process_message_eq.
  destruct (prompt_requests_first World chat call_tool fuel model []
              {| self := asked message token (self m1); world := world m1;
                 io := io m1; yielded := yielded m1 |}) as [rest E].
  exists rest. exact E.
Qed.

End MoreFacts.

(** * Properties of the tool server *)

Lemma slash_menu_not_plain (d rest : string) :
  PyStr.contains "/" rest = false -> d ++ "/menu" <> rest.
Proof.
  intros Hrest E.
  assert (H : PyStr.contains "/" (d ++ "/menu") = true).
  { apply contains_iff. exists d, "menu". reflexivity. }
  rewrite E in H. congruence.
Qed.

(** X19: the token of a tool call travels in the [Authorization] header
    and nowhere else: the method, the URL, the query parameters and the JSON
    body of the request of every tool are the same whatever the token, and
    the headers are exactly [Authorization: Bearer <token>]. *)
Theorem X19_token_only_in_header (BASE_URL : string) (call : Server.Call)
  (token1 token2 : string) :
  let r1 := Server.request_of BASE_URL call token1 in
  let r2 := Server.request_of BASE_URL call token2 in
  Server.method r1 = Server.method r2
  /\ Server.url r1 = Server.url r2
  /\ Server.params r1 = Server.params r2
  /\ Server.json r1 = Server.json r2
  /\ Server.headers r1 = [("Authorization", "Bearer " ++ token1)].
Proof. destruct call; repeat split. Qed.

(** X20: no two tools send to the same endpoint: if the requests of two
    calls have the same method and the same URL, whatever their arguments
    and whatever BASE_URL is, they are calls of the same tool. *)
Theorem X20_tools_have_distinct_endpoints (BASE_URL : string)
  (a b : Server.Call) (token1 token2 : string) :
  Server.method (Server.request_of BASE_URL a token1)
  = Server.method (Server.request_of BASE_URL b token2) ->
  Server.url (Server.request_of BASE_URL a token1)
  = Server.url (Server.request_of BASE_URL b token2) ->
  Server.tool_of a = Server.tool_of b.
Proof.
  destruct a, b; cbn [Server.request_of Server.tool_of Server.method Server.url
                        Server.topup_saldo Server.get_restaurants
                        Server.find_nearest_restaurants Server.get_menu
                        Server.create_order Server.get_my_orders
                        Server.get_my_balance Server.get_transaction_history];
    intros Hm Hu; try reflexivity; try discriminate Hm;
    apply string_app_inv_head in Hu; try discriminate Hu;
    exfalso.
  - apply (string_app_inv_head "/api/restaurants/") in Hu.
    symmetry in Hu. revert Hu. now apply slash_menu_not_plain.
  - apply (string_app_inv_head "/api/restaurants/") in Hu.
    revert Hu. now apply slash_menu_not_plain.
Qed.

(** * Concrete runs *)

Import Scripted.

(** C1: a request for a provider that is not active, or with no '/' in its
    name, is not turned into a tool result: the lookup of lines 245-247 is
    outside the [try], so [KeyError] or [IndexError] leaves [_tool_call],
    the generator stops after the calling status, and nothing is appended to
    the history.  A failure of the provider call itself is turned into text
    and the loop goes on. *)
Theorem C1_unrouted_call_escapes :
  let run turn :=
    send 3 "isi saldo" "qwen3:8b" "T1"
      (with_client (select_server ["places"]) (ready [turn; [say "ok"]])) in
  let before :=
    [{| role := "system"; content := SYSTEM_PROMPT |}; user_turn "isi saldo"] in
  (fst (run [call "wallet/topup" []]) = Raise (KeyError "wallet")
   /\ messages (self (snd (run [call "wallet/topup" []]))) = before
   /\ map cr_role (yielded (snd (run [call "wallet/topup" []]))) = ["status"])
  /\ (fst (run [call "topup" []]) = Raise (KeyError "topup")
      /\ messages (self (snd (run [call "topup" []]))) = before)
  /\ (fst (run [call "places" []])
      = Raise (IndexError "list index out of range")
      /\ messages (self (snd (run [call "places" []]))) = before)
  /\ (fst (run [call "places/boom" []]) = Ok tt
      /\ map role (messages (self (snd (run [call "places/boom" []]))))
         = ["system"; "user"; "tool"]).
Proof. vm_compute. repeat split. Qed.

(** C2, as stated, fails: the answer "Halo" is streamed and the history
    ends with the user message, with no assistant entry. *)
Lemma C2_history_lacks_answer :
  let m := ready [[say "Halo"]] in
  let m' := snd (send 1 "hi" "qwen3:8b" "T1" m) in
  map cr_content (yielded m') = ["Halo"]
  /\ ~ history_keeps_answer (messages (self m)) "hi" (yielded m')
         (messages (self m')).
Proof.
  split; [reflexivity|].
  intros (answer & E & _ & C). vm_compute in E.
  destruct answer as [|a answer]; [|discriminate].
  vm_compute in C. discriminate.
Qed.

Lemma C2_plain_answer_witness :
  let m := ready [[say "Halo"; say EmptyString; say " dunia"]] in
  let c1 := asked "hi" "T1" (self m) in
  Forall (fun part => tool_calls part = [])
    (fst (chat (world m) "qwen3:8b" (messages c1) (get_tools c1)))
  /\ fst (send 1 "hi" "qwen3:8b" "T1" m) = Ok tt
  /\ map cr_content
       (yielded (snd (send 1 "hi" "qwen3:8b" "T1" m)))
     = ["Halo"; " dunia"].
Proof.
  intros m c1.
  assert (H : Forall (fun part => tool_calls part = [])
                (fst (chat (world m) "qwen3:8b" (messages c1) (get_tools c1))))
    by (vm_compute; repeat constructor).
  split; [exact H|].
  unfold send.
  rewrite (proj1 (C2_plain_answer World chat call_tool 0 "hi" "qwen3:8b" "T1" m H)).
  split; reflexivity.
Defined.

(** C3: [wallet/topup] declares a [token] field in its schema and the side
    channel holds "T1"; the model asked for the tool without a token, and
    none is put in: the provider is called with the arguments as they
    came.  Line 250 announces that the token is added when it is available
    and the tool requires it; the test of line 251 looks for the text
    'token' in the arguments and never at the schema.  The same tool asked
    for with a token of the model's own gets the side channel's. *)
Theorem C3_declared_token_not_injected :
  let m := ready [[call "wallet/topup" [("amount", PInt 5)]]; [say "ok"]] in
  let m' := snd (send 2 "isi 5" "qwen3:8b" "T1" m) in
  let given := [("amount", PInt 5); ("token", PStr "bogus")] in
  let n' := snd (send 2 "isi 5" "qwen3:8b" "T1"
                   (ready [[call "wallet/topup" given]; [say "ok"]])) in
  (exists descriptor,
      find_tool (get_tools (self m)) "wallet/topup" = Some descriptor
      /\ schema_declares_token (fn_parameters (function descriptor)) = true)
  /\ user_token (self m') = Some "T1"
  /\ filter is_call (io m')
     = [IoCallTool 5 "topup" [("amount", PInt 5)]
          (Returned [TextContent "ok topup"])]
  /\ dict_get [("amount", PInt 5)] "token" = None
  /\ filter is_call (io n')
     = [IoCallTool 5 "topup" [("amount", PInt 5); ("token", PStr "T1")]
          (Returned [TextContent "ok topup"])].
Proof.
  split; [eexists; split; vm_compute; reflexivity|].
  vm_compute. repeat split.
Qed.

Lemma token_entry_is_overridden_witness :
  let tool := {| call_name := "wallet/topup";
                 arguments := [("amount", PInt 5); ("token", PStr "bogus")] |} in
  let m := with_client (asked "isi 5" "T1") (ready []) in
  route (self m) (call_name tool) = Some (5, "topup")
  /\ user_token (self m) = Some "T1"
  /\ dict_get (arguments tool) "token" = Some (PStr "bogus")
  /\ exists outcome,
      io (snd (tool_call_body call_tool tool m))
      = (io m ++ [IoCallTool 5 "topup"
                    [("amount", PInt 5); ("token", PStr "T1")] outcome])%list.
Proof.
  intros tool m.
  assert (R : route (self m) (call_name tool) = Some (5, "topup"))
    by reflexivity.
  assert (T : user_token (self m) = Some "T1") by reflexivity.
  assert (N : "T1" <> EmptyString) by discriminate.
  assert (A : (exists v, dict_get (arguments tool) "token" = Some v)
              \/ PyStr.contains "token" (py_str_dict (arguments tool)) = true)
    by (left; exists (PStr "bogus"); reflexivity).
  split; [exact R|]. split; [exact T|]. split; [reflexivity|].
  exact (proj1 (token_entry_is_overridden World call_tool tool m 5 "topup" "T1"
                  R T N A)).
Defined.

(** C4, as stated, fails: at depth 0 the result event of "places/nearby"
    carries no chain, while its calling status carries the chain extended by
    the name. *)
Lemma C4_result_chain_not_extended :
  let m' := snd (send 2 "dekat" "qwen3:8b" "T1"
                   (ready [[call "places/nearby" []]; [say "ok"]])) in
  exists status result,
    nth_error (yielded m') 0 = Some status
    /\ nth_error (yielded m') 1 = Some result
    /\ cr_role status = "status"
    /\ cr_tool_chain status = Some ([] ++ ["places/nearby"])%list
    /\ cr_role result = "tool"
    /\ cr_tool_chain result = None
    /\ cr_tool_chain result <> Some ([] ++ ["places/nearby"])%list.
Proof.
  do 2 eexists. vm_compute. repeat split. discriminate.
Qed.

(** C5, as stated, fails: a name that is not registered is accepted, and
    the selection is what is left of the list. *)
Lemma C5_unknown_name_accepted :
  let c := self (ready []) in
  selectActive_spec ["places"; "ghost"] c = inl UnknownProviderError
  /\ dict_keys (selected (select_server ["places"; "ghost"] c)) = ["places"]
  /\ selectActive_spec ["places"; "ghost"] c
     <> inr (select_server ["places"; "ghost"] c).
Proof. vm_compute. repeat split. discriminate. Qed.

Lemma C5_select_filters_witness :
  fst (boot two_providers []) = Ok tt
  /\ dict_keys (selected (self (snd (boot two_providers []))))
     = ["wallet"; "places"]
  /\ dict_keys (selected (select_server ["places"; "ghost"]
                            (self (snd (boot two_providers [])))))
     = ["places"].
Proof.
  assert (H : fst (boot two_providers []) = Ok tt) by reflexivity.
  split; [exact H|].
  destruct (C5_select_filters World connect two_providers []
              (self (snd (boot two_providers []))) ["places"; "ghost"] H)
    as (_ & Hall & Hsel & _).
  unfold boot in *. rewrite Hall, Hsel. split; reflexivity.
Defined.

(** C6, as stated, fails: in one turn with two tool-call fragments the
    calling status of the second batch comes after the result of the
    first. *)
Lemma C6_status_after_result_in_turn :
  let m' := snd (send 2 "hi" "qwen3:8b" "T1"
                   (ready [[call "wallet/topup" []; call "places/nearby" []];
                           [say "ok"]])) in
  map cr_role (yielded m') = ["status"; "tool"; "status"; "tool"; "assistant"]
  /\ map is_chat (io m') = [true; false; false; true].
Proof. vm_compute. split; reflexivity. Qed.

Lemma C6_calling_before_results_witness :
  let part := {| part_content := EmptyString;
                 tool_calls := [{| call_name := "wallet/topup"; arguments := [] |};
                                {| call_name := "places/nearby"; arguments := [] |}] |} in
  dispatches part = true
  /\ exists msgs,
      yielded (snd (on_part call_tool [] part 0 (ready [])))
      = (map (calling_event []) (tool_calls part)
           ++ map (result_event []) msgs)%list
      /\ List.length msgs = 2.
Proof.
  intros part.
  assert (D : dispatches part = true) by reflexivity.
  split; [exact D|].
  destruct (C6_calling_before_results World call_tool [] part 0 (ready []) D)
    as (msgs & Hy & _ & _ & _ & _ & [[_ Hlen]|(e & He & _)]).
  - exists msgs. split; [exact Hy | exact Hlen].
  - vm_compute in He. discriminate.
Defined.

(** C7, as stated, fails: a provider that lists the tool [list] twice
    gives a catalog with the qualified name "shop/list" twice. *)
Lemma C7_duplicate_names :
  let config := {| stdio := [("shop", "list,list")]; sse := [];
                   streamable := [] |} in
  fst (boot config []) = Ok tt
  /\ qualified_names (get_tools (self (snd (boot config []))))
     = ["shop/list"; "shop/list"]
  /\ ~ NoDup (qualified_names (get_tools (self (snd (boot config []))))).
Proof.
  split; [reflexivity|]. split; [reflexivity|].
  vm_compute. intros H. inversion H as [|x l Hnin _]; subst.
  apply Hnin. now left.
Qed.

Lemma C7_catalog_witness :
  let created := self (snd (create connect_single two_providers [])) in
  fst (create connect_single two_providers []) = Ok tt
  /\ lists_distinct connect_single
  /\ qualified_names (get_tools created) = ["wallet/topup"; "places/nearby"]
  /\ NoDup (qualified_names (get_tools created))
  /\ NoDup (qualified_names (get_tools (select_server ["places"] created))).
Proof.
  intros created.
  assert (H : fst (create connect_single two_providers []) = Ok tt)
    by reflexivity.
  assert (S : Forall (fun k => no_slash k = true) (config_names two_providers))
    by (vm_compute; repeat constructor).
  assert (D : lists_distinct connect_single).
  { intros w t s listed w' [= _ <- _]. simpl.
    constructor; [intros []|constructor]. }
  split; [exact H|]. split; [exact D|]. split; [reflexivity|].
  destruct (C7_catalog World connect_single two_providers [] ["places"] H S D)
    as (_ & _ & Hall & Hsel & _).
  split; [exact Hall | exact Hsel].
Defined.



(** C9: in one turn the model asks for [places/nearby], which is called,
    and then for [wallet/topup], whose provider is not selected.  A tool
    call occurred in the turn, and the loop does not go on to a new model
    request: [KeyError] leaves [_tool_call] from the lookup of lines
    245-247, outside the [try], and line 238 is not reached; one provider
    call and one model request were made, and the next turn of the model
    is never asked for.  With a second call that fails at the provider
    instead, lines 260-262 make a text of the failure and the loop does go
    on to a second request. *)
Theorem C9_call_made_and_no_new_request :
  let run turn :=
    send 3 "dekat" "qwen3:8b" "T1"
      (with_client (select_server ["places"]) (ready [turn; [say "ok"]])) in
  let lost := [call "places/nearby" []; call "wallet/topup" []] in
  let kept := [call "places/nearby" []; call "places/boom" []] in
  (fst (run lost) = Raise (KeyError "wallet")
   /\ filter is_call (io (snd (run lost)))
      = [IoCallTool 6 "nearby" [] (Returned [TextContent "ok nearby"])]
   /\ calls_made (io (snd (run lost))) = 1
   /\ chats_made (io (snd (run lost))) = 1
   /\ world (snd (run lost)) = [[say "ok"]]
   /\ map cr_role (yielded (snd (run lost))) = ["status"; "tool"; "status"])
  /\ (fst (run kept) = Ok tt
      /\ calls_made (io (snd (run kept))) = 2
      /\ chats_made (io (snd (run kept))) = 2
      /\ world (snd (run kept)) = []).
Proof. vm_compute. repeat split. Qed.

Lemma completed_turn_recurses_or_returns_witness :
  let m := ready [[say "Halo"]] in
  let m0 := snd (do_chat chat "qwen3:8b" m) in
  let m1 := snd (consume call_tool [] [say "Halo"] 0 m0) in
  let n := ready [[call "places/nearby" []]; [say "ok"]] in
  let n0 := snd (do_chat chat "qwen3:8b" n) in
  let n1 := snd (consume call_tool [] [call "places/nearby" []] 0 n0) in
  (consume call_tool []
     (fst (chat (world m) "qwen3:8b" (messages (self m)) (get_tools (self m))))
     0 m0
   = (Ok 0, m1)
   /\ _recursive_prompt chat call_tool 1 "qwen3:8b" [] m = (Ok tt, m1)
   /\ chats_made (io m1) = 1)
  /\ (consume call_tool []
        (fst (chat (world n) "qwen3:8b" (messages (self n))
                (get_tools (self n))))
        0 n0
      = (Ok 1, n1)
      /\ calls_made (io n0) < calls_made (io n1)
      /\ _recursive_prompt chat call_tool 2 "qwen3:8b" [] n
         = _recursive_prompt chat call_tool 1 "qwen3:8b" [] n1).
Proof.
  intros m m0 m1 n n0 n1. split.
  - assert (E : consume call_tool []
                  (fst (chat (world m) "qwen3:8b" (messages (self m))
                          (get_tools (self m)))) 0 m0 = (Ok 0, m1))
      by reflexivity.
    split; [exact E|].
    destruct (completed_turn_recurses_or_returns World chat call_tool 0
                "qwen3:8b" [] m 0 m1 E) as (_ & _ & Hstop).
    exact (Hstop eq_refl).
  - assert (E : consume call_tool []
                  (fst (chat (world n) "qwen3:8b" (messages (self n))
                          (get_tools (self n)))) 0 n0 = (Ok 1, n1))
      by reflexivity.
    assert (L : calls_made (io n0) < calls_made (io n1))
      by (vm_compute; lia).
    split; [exact E|]. split; [exact L|].
    destruct (completed_turn_recurses_or_returns World chat call_tool 1
                "qwen3:8b" [] n 1 n1 E) as (_ & Hrec & _).
    exact (proj1 (Hrec L)).
Defined.

(** C10, as stated, fails in its last clause: the model sent no token
    argument, the text 'token' occurs in a value, and the token is put
    in. *)
Lemma C10_token_without_token_argument :
  let tool := {| call_name := "places/nearby";
                 arguments := [("note", PStr "token")] |} in
  let m := with_client (asked "dekat" "T1") (ready []) in
  dict_get (arguments tool) "token" = None
  /\ filter is_call (io (snd (tool_call_body call_tool tool m)))
     = [IoCallTool 6 "nearby" [("note", PStr "token"); ("token", PStr "T1")]
          (Returned [TextContent "ok nearby"])].
Proof. vm_compute. split; reflexivity. Qed.

Lemma C10_token_condition_witness :
  let tool := {| call_name := "places/nearby";
                 arguments := [("lat", PInt (-6)); ("lon", PInt 106)] |} in
  let m := with_client (asked "dekat" "T1") (ready []) in
  route (self m) (call_name tool) = Some (6, "nearby")
  /\ sent_args (self m) tool = arguments tool
  /\ exists outcome,
      io (snd (tool_call_body call_tool tool m))
      = (io m ++ [IoCallTool 6 "nearby" (arguments tool) outcome])%list.
Proof.
  intros tool m.
  assert (R : route (self m) (call_name tool) = Some (6, "nearby"))
    by reflexivity.
  split; [exact R|].
  destruct (C10_token_condition World call_tool tool m 6 "nearby" R)
    as (_ & Hio & _ & _ & Hno & _).
  split; [exact (Hno eq_refl) | exact Hio].
Defined.

(** ** Concrete runs for the further properties *)


Lemma X9_unrouted_call_discards_batch_witness :
  let first := {| call_name := "places/nearby"; arguments := [] |} in
  let bad := {| call_name := "wallet/topup"; arguments := [] |} in
  let part := {| part_content := EmptyString; tool_calls := [first; bad] |} in
  let m := with_client (select_server ["places"]) (ready []) in
  dispatches part = true
  /\ routed (self m) first = true /\ routed (self m) bad = false
  /\ fst (on_part call_tool [] part 0 m) = Raise (KeyError "wallet")
  /\ messages (self (snd (on_part call_tool [] part 0 m)))
     = messages (self m)
  /\ calls_made (io (snd (on_part call_tool [] part 0 m))) = 1.
Proof.
  intros first bad part m.
  assert (D : dispatches part = true) by reflexivity.
  assert (Hpre : Forall (fun t => routed (self m) t = true) [first])
    by (repeat constructor).
  assert (Hbad : routed (self m) bad = false) by reflexivity.
  split; [exact D|]. split; [reflexivity|]. split; [exact Hbad|].
  destruct (X9_unrouted_call_discards_batch World call_tool [] part 0 m
              [first] [] bad D eq_refl Hpre Hbad)
    as (_ & Hm & _ & _).
  split; [reflexivity|]. split; [exact Hm | reflexivity].
Defined.

Lemma X10_qualified_names_route_back_witness :
  let c := self (ready []) in
  let native := {| mcp_name := "nearby"; mcp_description := None;
                   inputSchema := token_schema |} in
  no_slash "places" = true
  /\ route c "places/nearby" = Some (6, "nearby").
Proof.
  intros c native.
  assert (Hp : no_slash "places" = true) by reflexivity.
  split; [exact Hp|].
  destruct (dict_get (selected c) "places") as [s|] eqn:Hs;
    [|vm_compute in Hs; discriminate].
  destruct (X10_qualified_names_route_back c "places" s native Hp Hs)
    as (_ & Hr & _).
  pose proof (Hr eq_refl) as H1.
  vm_compute in Hs. injection Hs as <-. exact H1.
Defined.

Lemma X11_selection_decides_routing_witness :
  let tool := {| call_name := "ghost/list"; arguments := [] |} in
  let m := with_client (select_server ["places"; "ghost"]) (ready []) in
  no_slash "ghost" = true
  /\ name_in "ghost" ["places"; "ghost"] = true
  /\ route (self m) "ghost/list" = None
  /\ tool_call_body call_tool tool m = (Raise (KeyError "ghost"), m).
Proof.
  intros tool m.
  assert (Hp : no_slash "ghost" = true) by reflexivity.
  split; [exact Hp|]. split; [reflexivity|].
  destruct (X11_selection_decides_routing World call_tool ["places"; "ghost"]
              (prepare_prompt (self (snd (boot two_providers []))))
              "ghost" "list" tool m Hp eq_refl eq_refl) as (R & _ & K).
  split; [exact R | exact (K (or_intror eq_refl))].
Defined.

Lemma X13_catalog_names_are_routed_witness :
  let created := self (snd (create connect two_providers [])) in
  let s := {| session := 6;
              tools := [qualify "places"
                          {| mcp_name := "nearby"; mcp_description := None;
                             inputSchema := token_schema |}] |} in
  fst (create connect two_providers []) = Ok tt
  /\ In ("places", s) (servers created)
  /\ route (select_server ["places"] created) "places/nearby"
     = Some (6, "nearby").
Proof.
  intros created s.
  assert (Hok : fst (create connect two_providers []) = Ok tt) by reflexivity.
  assert (Hin : In ("places", s) (servers created)) by (right; left; reflexivity).
  split; [exact Hok|]. split; [exact Hin|].
  destruct (X13_catalog_names_are_routed World connect two_providers []
              ["places"] "places" s
              (qualify "places"
                 {| mcp_name := "nearby"; mcp_description := None;
                    inputSchema := token_schema |})
              Hok Hin eq_refl eq_refl (or_introl eq_refl))
    as (_ & native & Hname & Hr).
  injection Hname as <-. exact Hr.
Defined.

Lemma X14_create_contacts_all_in_order_witness :
  let config := {| stdio := [("wallet", "topup")];
                   sse := [("places", "nearby"); ("wallet", "topup,history")];
                   streamable := [] |} in
  fst (create connect config []) = Ok tt
  /\ io (snd (create connect config []))
     = [IoConnect (stdio_client "topup"); IoConnect (sse_client "nearby");
        IoConnect (sse_client "topup,history")]
  /\ NoDup (dict_keys (servers (self (snd (create connect config []))))).
Proof.
  intros config.
  assert (Hok : fst (create connect config []) = Ok tt) by reflexivity.
  split; [exact Hok|].
  destruct (X14_create_contacts_all_in_order World connect config [] Hok)
    as (Hio & Hnd & _).
  split; [exact Hio | exact Hnd].
Defined.



Lemma X17_tool_calls_with_text_are_dropped_witness :
  let both := {| part_content := "Sebentar ya";
                 tool_calls := [{| call_name := "places/nearby";
                                   arguments := [] |}] |} in
  let m := ready [[both]; [say "tidak pernah diminta"]] in
  let c1 := asked "dekat" "T1" (self m) in
  Forall (fun part => tool_calls part <> [] ->
                      nonempty (part_content part) = true)
    (fst (chat (world m) "qwen3:8b" (messages c1) (get_tools c1)))
  /\ fst (send 5 "dekat" "qwen3:8b" "T1" m) = Ok tt
  /\ map cr_role (yielded (snd (send 5 "dekat" "qwen3:8b" "T1" m)))
     = ["assistant"]
  /\ calls_made (io (snd (send 5 "dekat" "qwen3:8b" "T1" m))) = 0.
Proof.
  intros both m c1.
  assert (H : Forall (fun part => tool_calls part <> [] ->
                                  nonempty (part_content part) = true)
                (fst (chat (world m) "qwen3:8b" (messages c1) (get_tools c1))))
    by (vm_compute; repeat constructor).
  split; [exact H|]. unfold send.
  rewrite (X17_tool_calls_with_text_are_dropped World chat call_tool 4
             "dekat" "qwen3:8b" "T1" m H).
  repeat split.
Defined.

Lemma X20_tools_have_distinct_endpoints_witness :
  let a := Server.TopupSaldo (PInt 5000) in
  let b := Server.TopupSaldo (PInt 20000) in
  Server.url (Server.request_of "http://localhost:3000" a "T1")
  = Server.url (Server.request_of "http://localhost:3000" b "T2")
  /\ Server.tool_of a = Server.tool_of b.
Proof.
  intros a b. split; [reflexivity|].
  exact (X20_tools_have_distinct_endpoints "http://localhost:3000" a b
           "T1" "T2" eq_refl eq_refl).
Defined.
